(** * One-dimensional minimisation routines of modelado-iue

    A shallow embedding of the numerical core of the React components
    [GoldenSection.jsx], [Fibonacci.jsx], the bisection component and the
    Newton component: the four search routines, their [run] handlers, the
    formula filter [parseCustomFunction] and the plot sampler [sampleData].

    JavaScript numbers are IEEE-754 binary64 values.  The routines are
    written once over an interface [Number] of the operators they use and
    are run at two instances:
    - [JS.float_Number]: Rocq's primitive binary64 floats, the arithmetic
      the components really compute with (every operator is the correctly
      rounded IEEE operator, NaN and the infinities included);
    - [Exact.R_Number]: the real numbers, the arithmetic the algorithms are
      designed in.
    Structural facts are proved for every instance; facts that need the
    order or the field laws say which instance they are about.

    What the model fixes about a call:
    - an objective (or derivative) is a function of numbers: it returns a
      number and has no effect of its own;
    - iteration budgets ([maxIter], the Fibonacci [n]) are integers, and the
      arguments of a [run] handler are the numbers its [Number(...)]
      conversions yield;
    - [alert] and [setResult] are the effects of a handler, listed in the
      order they happen; the alert inside [newtonMethod] is returned beside
      its result;
    - the host's [new Function] is a parameter: the JavaScript engine is
      not code of this repository. *)

From Stdlib Require Import ZArith NArith List String Ascii Bool Lia.
From Stdlib Require Import Floats Reals Lra Psatz.
Import ListNotations.

Set Implicit Arguments.
Set Warnings "-inexact-float".

(** * Part I: the program *)

(** ** Numbers *)

(** The operators of a JavaScript number that the routines use. *)
Class Number (T : Type) : Type := {
  nadd : T -> T -> T;
  nsub : T -> T -> T;
  nmul : T -> T -> T;
  ndiv : T -> T -> T;
  nabs : T -> T;               (* Math.abs *)
  nsqrt : T -> T;              (* Math.sqrt *)
  nltb : T -> T -> bool;       (* x < y, and y > x *)
  nleb : T -> T -> bool;       (* x <= y, and y >= x *)
  of_int : Z -> T              (* an integer literal or loop counter *)
}.

(** What the order of both instances satisfies: [<] is asymmetric, and
    [x >= y] excludes [x < y]. *)
Class NumberLaws (T : Type) {N : Number T} : Prop := {
  nltb_asym : forall x y : T, nltb x y = true -> nltb y x = false;
  nleb_not_nltb : forall x y : T, nleb y x = true -> nltb x y = false
}.
Arguments NumberLaws T {N}.

(** The values and built-ins that only an IEEE number has. *)
Class IEEE (T : Type) {N : Number T} : Type := {
  NaN : T;
  isNaN : T -> bool;          (* the global isNaN, on a number *)
  toFixed6 : T -> T           (* Number(x.toFixed(6)) *)
}.
Arguments IEEE T {N}.

Declare Scope num_scope.
Delimit Scope num_scope with num.
Infix "+" := nadd : num_scope.
Infix "-" := nsub : num_scope.
Infix "*" := nmul : num_scope.
Infix "/" := ndiv : num_scope.
Infix "<?" := nltb : num_scope.

(** What every search returns: [{ xOpt, fOpt, history }]. *)
Record Result (T Rec : Type) : Type := mkResult {
  xOpt : T;
  fOpt : T;
  history : list Rec
}.

(** The observable actions of a click handler, in the order it performs
    them. *)
Inductive Effect (R : Type) : Type :=
| alert (msg : string)
| setResult (r : R).
Arguments alert {R} msg.
Arguments setResult {R} r.



(** [iterate g k x] is [g] applied [k] times to [x]. *)
Fixpoint iterate {A : Type} (g : A -> A) (k : nat) (x : A) : A :=
  match k with
  | O => x
  | S k' => iterate g k' (g x)
  end.

(** ** JavaScript strings and [parseCustomFunction]

    The four components carry the same copy of [parseCustomFunction]
    ([GoldenSection.jsx] lines 19-54 and 416-451, [Fibonacci.jsx] lines
    14-49, the Newton component lines 30-65). *)

Module Parser.

(** A string is its sequence of UTF-16 code units. *)
Definition jsstring : Type := list N.

(** The code units of an ASCII literal. *)
Definition js (s : string) : jsstring :=
  map N_of_ascii (list_ascii_of_string s).

(** White space and line terminators: what [trim] strips and [\s] matches. *)
Definition isWhiteSpace (u : N) : bool :=
  existsb (N.eqb u)
    [9; 10; 11; 12; 13; 32; 160; 5760; 8232; 8233; 8239; 8287; 12288; 65279]%N
  || ((8192 <=? u) && (u <=? 8202))%N.

Fixpoint trimStart (s : jsstring) : jsstring :=
  match s with
  | u :: s' => if isWhiteSpace u then trimStart s' else s
  | [] => []
  end.

Definition trim (s : jsstring) : jsstring :=
  rev (trimStart (rev (trimStart s))).

(** One code unit against the class
    [[x0-9+\-*/().\s,^sin|cos|tan|log|exp|sqrt|abs|pow|min|max]]: inside the
    brackets every character stands for itself, the bar and the letters of
    the names included. *)
Definition inClass (u : N) : bool :=
  N.eqb u 120 (* x *)
  || ((48 <=? u) && (u <=? 57))%N (* 0-9 *)
  || existsb (N.eqb u) (js "+-*/().")
  || isWhiteSpace u
  || existsb (N.eqb u) (js ",^sin|cos|tan|log|exp|sqrt|abs|pow|min|max").

(** [allowedChars.test(funcString)]: the pattern is [^[...]+$]. *)
Definition allowedChars (s : jsstring) : bool :=
  match s with
  | [] => false
  | _ => forallb inClass s
  end.

Fixpoint startsWith (pat s : jsstring) : bool :=
  match pat, s with
  | [], _ => true
  | p :: pat', u :: s' => N.eqb p u && startsWith pat' s'
  | _ :: _, [] => false
  end.

(** [s.replace(/pat/g, rep)] for a literal, non-empty [pat]: matches are
    taken left to right and do not overlap; [skip] counts the code units of
    the current match still to be dropped. *)
Fixpoint replace_from (pat rep s : jsstring) (skip : nat) : jsstring :=
  match s with
  | [] => []
  | u :: s' =>
      match skip with
      | S k => replace_from pat rep s' k
      | O =>
          if startsWith pat s
          then rep ++ replace_from pat rep s' (List.length pat - 1)
          else u :: replace_from pat rep s' 0
      end
  end.

Definition replaceAll (pat rep s : jsstring) : jsstring :=
  replace_from pat rep s 0.

(** The chain of [.replace] calls, in source order. *)
Definition replacements : list (jsstring * jsstring) :=
  [ (js "^", js "**");
    (js "sin(", js "Math.sin(");
    (js "cos(", js "Math.cos(");
    (js "tan(", js "Math.tan(");
    (js "log(", js "Math.log(");
    (js "exp(", js "Math.exp(");
    (js "sqrt(", js "Math.sqrt(");
    (js "abs(", js "Math.abs(");
    (js "pow(", js "Math.pow(");
    (js "min(", js "Math.min(");
    (js "max(", js "Math.max(") ].

Definition processedFunc (s : jsstring) : jsstring :=
  fold_left (fun acc pr => replaceAll (fst pr) (snd pr) acc) replacements s.

Definition msg_chars : string := "Función contiene caracteres no permitidos".
Definition msg_prefix : string := "Error en la función: ".

Section Parse.
Context {T : Type} {N : Number T}.

(** A compiled function of [x]: it returns a number or throws an error with
    a message. *)
Definition callable : Type := T -> string + T.

(** The host's [new Function('x', body)]: a callable, or a SyntaxError with
    its message.  The JavaScript engine is not code of this repository. *)
Variable newFunction : jsstring -> string + callable.

(** [inl m] is [throw new Error(m)]. *)
Definition parseCustomFunction (funcString : jsstring) : string + callable :=
  let funcString := trim funcString in
  if negb (allowedChars funcString) then inl (msg_prefix ++ msg_chars)%string
  else
    match newFunction (js "return " ++ processedFunc funcString) with
    | inl m => inl (msg_prefix ++ m)%string
    | inr func =>
        match func (of_int 1) with
        | inl m => inl (msg_prefix ++ m)%string
        | inr _ => inr func
        end
    end.

(** The validation step shared by the four [run] handlers. *)
Definition msg_custom : string := "Error en la función personalizada: ".

Definition validate (custom : option jsstring) : option string :=
  match custom with
  | None => None
  | Some s =>
      match parseCustomFunction s with
      | inl m => Some (msg_custom ++ m)%string
      | inr _ => None
      end
  end.

End Parse.
End Parser.

Definition msg_bracket : string :=
  "El límite izquierdo (a) debe ser menor que el derecho (b).".

(** ** Golden-section search ([GoldenSection.jsx], lines 56-85 and 130-152) *)

Module GoldenSection.
Section Search.
Context {T : Type} {N : Number T}.
Local Open Scope num_scope.

(** One entry of [history]. *)
Record record : Type := mkRecord {
  r_iter : nat;
  r_a : T; r_b : T; r_c : T; r_d : T;
  r_fc : T; r_fd : T;
  r_midpoint : T
}.

(** The loop variables [a, b, c, d, fc, fd]. *)
Record state : Type := mkState {
  a : T; b : T; c : T; d : T; fc : T; fd : T
}.

(** [const phi = (1 + Math.sqrt(5)) / 2] *)
Definition phi : T := (of_int 1 + nsqrt (of_int 5)) / of_int 2.

Variable f : T -> T.

(** The declarations before the loop. *)
Definition init (a0 b0 : T) : state :=
  let c0 := b0 - (b0 - a0) / phi in
  let d0 := a0 + (b0 - a0) / phi in
  mkState a0 b0 c0 d0 (f c0) (f d0).

(** The [if (fc < fd) ... else ...] of the loop body. *)
Definition step (s : state) : state :=
  if fc s <? fd s then
    let b' := d s in
    let d' := c s in
    let fd' := fc s in
    let c' := b' - (b' - a s) / phi in
    mkState (a s) b' c' d' (f c') fd'
  else
    let a' := c s in
    let c' := d s in
    let fc' := fd s in
    let d' := a' + (b s - a') / phi in
    mkState a' (b s) c' d' fc' (f d').

(** The object pushed on [history] in the iteration numbered [iter]. *)
Definition record_of (iter : nat) (s : state) : record :=
  mkRecord (iter + 1) (a s) (b s) (c s) (d s) (fc s) (fd s)
           ((a s + b s) / of_int 2).

(** [if (Math.abs(b - a) < tol) break;] *)
Definition converged (tol : T) (s : state) : bool :=
  nabs (b s - a s) <? tol.

(** The [for] loop; [fuel] is [maxIter - iter]. *)
Fixpoint loop (tol : T) (fuel iter : nat) (s : state) (h : list record)
  : state * list record :=
  match fuel with
  | O => (s, h)
  | S fuel' =>
      let h' := h ++ [record_of iter s] in
      if converged tol s then (s, h')
      else loop tol fuel' (S iter) (step s) h'
  end.

Definition goldenSectionSearch (a0 b0 tol : T) (maxIter : nat)
  : Result T record :=
  let (s, h) := loop tol maxIter 0 (init a0 b0) [] in
  let x := (a s + b s) / of_int 2 in
  mkResult x (f x) h.

(** The loop variables after [k] passes through the [if]. *)
Definition state_at (a0 b0 : T) (k : nat) : state :=
  iterate step k (init a0 b0).

(** The handler [run] of [GoldenSectionOptimizer]; [custom] is the formula
    when the custom objective is selected, [f] the memoised objective. *)
Variable newFunction : Parser.jsstring -> string + Parser.callable (T := T).

Definition run (custom : option Parser.jsstring) (na nb ntol : T) (nmax : nat)
  : list (Effect (Result T record)) :=
  if negb (na <? nb) then [alert msg_bracket]
  else
    match Parser.validate newFunction custom with
    | Some m => [alert m]
    | None => [setResult (goldenSectionSearch na nb ntol nmax)]
    end.

End Search.
End GoldenSection.

(** ** Bisection on the derivative ([GoldenSection.jsx], lines 453-483 and
    561-591) *)

Module Bisection.
Section Search.
Context {T : Type} {N : Number T}.
Local Open Scope num_scope.

(** One entry of [history]. *)
Record record : Type := mkRecord {
  r_iter : nat;
  r_a : T; r_b : T; r_c : T;
  r_fc : T; r_dfc : T;
  r_error : T
}.

(** The loop variables [a, b]. *)
Record state : Type := mkState { a : T; b : T }.

Variables f df : T -> T.

(** [const c = (a + b) / 2] *)
Definition mid (s : state) : T := (a s + b s) / of_int 2.

Definition record_of (iter : nat) (s : state) : record :=
  let c := mid s in
  mkRecord (iter + 1) (a s) (b s) c (f c) (df c) (nabs (b s - a s)).

(** [if (Math.abs(dfc) < tol || Math.abs(b - a) < tol) break;] *)
Definition stop (tol : T) (s : state) : bool :=
  (nabs (df (mid s)) <? tol) || (nabs (b s - a s) <? tol).

(** [if (dfc > 0) b = c; else a = c;] *)
Definition step (s : state) : state :=
  if of_int 0 <? df (mid s) then mkState (a s) (mid s)
  else mkState (mid s) (b s).

(** The [for] loop; [fuel] is [maxIter - iter]. *)
Fixpoint loop (tol : T) (fuel iter : nat) (s : state) (h : list record)
  : state * list record :=
  match fuel with
  | O => (s, h)
  | S fuel' =>
      let h' := h ++ [record_of iter s] in
      if stop tol s then (s, h')
      else loop tol fuel' (S iter) (step s) h'
  end.

Definition bisectionMethod (a0 b0 tol : T) (maxIter : nat)
  : Result T record :=
  let (s, h) := loop tol maxIter 0 (mkState a0 b0) [] in
  let x := (a s + b s) / of_int 2 in
  mkResult x (f x) h.

(** The bracket after [k] passes through the [if]. *)
Definition state_at (a0 b0 : T) (k : nat) : state :=
  iterate step k (mkState a0 b0).

Definition msg_sign : string :=
  "La derivada debe cambiar de signo en el intervalo [a,b] para el método de bisección.".

(** The handler [run] of [BisectionOptimizer]. *)
Variable newFunction : Parser.jsstring -> string + Parser.callable (T := T).

Definition run (custom : option Parser.jsstring) (na nb ntol : T) (nmax : nat)
  : list (Effect (Result T record)) :=
  if negb (na <? nb) then [alert msg_bracket]
  else
    let dfA := df na in
    let dfB := df nb in
    if of_int 0 <? dfA * dfB then [alert msg_sign]
    else
      match Parser.validate newFunction custom with
      | Some m => [alert m]
      | None => [setResult (bisectionMethod na nb ntol nmax)]
      end.

End Search.
End Bisection.

(** ** Fibonacci search ([Fibonacci.jsx], lines 51-99 and 143-168) *)

Module Fibonacci.
Section Search.
Context {T : Type} {N : Number T} {I : IEEE T}.
Local Open Scope num_scope.

(** An array: [None] is a hole, read as [undefined]. *)
Definition jsarray : Type := list (option T).

(** [arr[i]]; an index outside the array reads [undefined]. *)
Definition arr_get (arr : jsarray) (i : Z) : option T :=
  if (i <? 0)%Z then None else nth (Z.to_nat i) arr None.

Fixpoint set_nth (arr : jsarray) (i : nat) (v : T) : jsarray :=
  match i, arr with
  | O, [] => [Some v]
  | O, _ :: arr' => Some v :: arr'
  | S i', [] => None :: set_nth [] i' v
  | S i', u :: arr' => u :: set_nth arr' i' v
  end.

(** [arr[i] = v]: a write past the end extends the array, leaving holes.
    The search writes only at [i >= 2]. *)
Definition arr_set (arr : jsarray) (i : Z) (v : T) : jsarray :=
  if (i <? 0)%Z then arr else set_nth arr (Z.to_nat i) v.

(** An array element as an operand of an arithmetic operator:
    [undefined] becomes NaN. *)
Definition num (v : option T) : T :=
  match v with Some x => x | None => NaN end.

(** [for (let i = 2; i <= n; i++) fib[i] = fib[i - 1] + fib[i - 2];] *)
Fixpoint fib_loop (fuel : nat) (i : Z) (fib : jsarray) : jsarray :=
  match fuel with
  | O => fib
  | S fuel' =>
      fib_loop fuel' (i + 1)%Z
        (arr_set fib i (num (arr_get fib (i - 1)) + num (arr_get fib (i - 2))))
  end.

(** [const fib = [1, 1]] and the generating loop. *)
Definition fibs (n : Z) : jsarray :=
  fib_loop (Z.to_nat (n - 1)) 2 [Some (of_int 1); Some (of_int 1)].

(** One entry of [history]. *)
Record record : Type := mkRecord {
  r_iter : nat;
  r_a : T; r_b : T; r_x1 : T; r_x2 : T;
  r_f1 : T; r_f2 : T;
  r_fib_k : option T;
  r_midpoint : T
}.

(** The loop variables [a, b, x1, x2, f1, f2, k]. *)
Record state : Type := mkState {
  a : T; b : T; x1 : T; x2 : T; f1 : T; f2 : T; k : Z
}.

Variable f : T -> T.

Definition ratio (fib : jsarray) (i j : Z) : T :=
  num (arr_get fib i) / num (arr_get fib j).

(** The declarations before the loop. *)
Definition init (fib : jsarray) (a0 b0 : T) (n : Z) : state :=
  let x1 := a0 + ratio fib (n - 2) n * (b0 - a0) in
  let x2 := a0 + ratio fib (n - 1) n * (b0 - a0) in
  mkState a0 b0 x1 x2 (f x1) (f x2) n.

(** The [if (f1 < f2) ... else ...] of the loop body. *)
Definition step (fib : jsarray) (s : state) : state :=
  if f1 s <? f2 s then
    let b' := x2 s in
    let x2' := x1 s in
    let f2' := f1 s in
    let k' := (k s - 1)%Z in
    let x1' := a s + ratio fib (k' - 2) k' * (b' - a s) in
    mkState (a s) b' x1' x2' (f x1') f2' k'
  else
    let a' := x1 s in
    let x1' := x2 s in
    let f1' := f2 s in
    let k' := (k s - 1)%Z in
    let x2' := a' + ratio fib (k' - 1) k' * (b s - a') in
    mkState a' (b s) x1' x2' f1' (f x2') k'.

Definition record_of (fib : jsarray) (iter : nat) (s : state) : record :=
  mkRecord (iter + 1) (a s) (b s) (x1 s) (x2 s) (f1 s) (f2 s)
           (arr_get fib (k s)) ((a s + b s) / of_int 2).

(** [for (let iter = 0; iter < n - 1; iter++)]; [fuel] is [n - 1 - iter]. *)
Fixpoint loop (fib : jsarray) (fuel iter : nat) (s : state) (h : list record)
  : state * list record :=
  match fuel with
  | O => (s, h)
  | S fuel' =>
      loop fib fuel' (S iter) (step fib s) (h ++ [record_of fib iter s])
  end.

Definition fibonacciSearch (a0 b0 : T) (n : Z) : Result T record :=
  let fib := fibs n in
  let (s, h) := loop fib (Z.to_nat (n - 1)) 0 (init fib a0 b0 n) [] in
  let x := (a s + b s) / of_int 2 in
  mkResult x (f x) h.

Definition msg_iterations : string :=
  "El número de iteraciones debe ser al menos 2.".

(** The handler [run] of [FibonacciOptimizer]. *)
Variable newFunction : Parser.jsstring -> string + Parser.callable (T := T).

Definition run (custom : option Parser.jsstring) (na nb : T) (nn : Z)
  : list (Effect (Result T record)) :=
  if negb (na <? nb) then [alert msg_bracket]
  else if (nn <? 2)%Z then [alert msg_iterations]
  else
    match Parser.validate newFunction custom with
    | Some m => [alert m]
    | None => [setResult (fibonacciSearch na nb nn)]
    end.

End Search.
End Fibonacci.

(** ** Newton's method (the Newton component, lines 67-98 and 163-180) *)

Module Newton.
Section Search.
Context {T : Type} {N : Number T}.
Local Open Scope num_scope.

(** One entry of [history]. *)
Record record : Type := mkRecord {
  r_iter : nat;
  r_x : T; r_fx : T; r_dfx : T; r_d2fx : T;
  r_step : T
}.

Variables f df d2f : T -> T.

(** The literal [1e-12]. *)
Definition stall_threshold : T := of_int 1 / of_int (10 ^ 12).

Definition msg_stall : string :=
  "La segunda derivada es muy pequeña. El método de Newton puede no converger.".

Definition record_of (iter : nat) (x : T) : record :=
  mkRecord (iter + 1) x (f x) (df x) (d2f x) (df x / d2f x).

(** [if (Math.abs(dfx) < tol) break;] *)
Definition converged (tol x : T) : bool := nabs (df x) <? tol.

(** [if (Math.abs(d2fx) < 1e-12) { alert(...); break; }] *)
Definition stalled (x : T) : bool := nabs (d2f x) <? stall_threshold.

(** [const step = dfx / d2fx; x = x - step;] *)
Definition step (x : T) : T := x - df x / d2f x.

(** The [for] loop; [fuel] is [maxIter - iter].  The third component is
    the alerts shown. *)
Fixpoint loop (tol : T) (fuel iter : nat) (x : T) (h : list record)
  : T * list record * list string :=
  match fuel with
  | O => (x, h, [])
  | S fuel' =>
      let h' := h ++ [record_of iter x] in
      if converged tol x then (x, h', [])
      else if stalled x then (x, h', [msg_stall])
      else loop tol fuel' (S iter) (step x) h'
  end.

(** The result, and the alerts shown on the way. *)
Definition newtonMethod (x0 tol : T) (maxIter : nat)
  : Result T record * list string :=
  let '(x, h, alerts) := loop tol maxIter 0 x0 [] in
  (mkResult x (f x) h, alerts).

(** The point after [k] Newton updates. *)
Definition point_at (x0 : T) (k : nat) : T := iterate step k x0.

(** The handler [run] of [NewtonOptimizer]. *)
Variable newFunction : Parser.jsstring -> string + Parser.callable (T := T).

Definition run (custom : option Parser.jsstring) (nx0 ntol : T) (nmax : nat)
  : list (Effect (Result T record)) :=
  match Parser.validate newFunction custom with
  | Some m => [alert m]
  | None =>
      let (res, alerts) := newtonMethod nx0 ntol nmax in
      map alert alerts ++ [setResult res]
  end.

End Search.
End Newton.

(** ** The plot sampler ([sampleData] of [GoldenSectionOptimizer],
    [FibonacciOptimizer] and [BisectionOptimizer]: the same text) *)

Module Sampler.
Section Sample.
Context {T : Type} {N : Number T} {I : IEEE T}.
Local Open Scope num_scope.

Record point : Type := mkPoint { x : T; y : T }.

(** [const samples = 300] *)
Definition samples : Z := 300.

Variable f : T -> T.

(** The abscissa of sample [i], before rounding. *)
Definition abscissa (numA numB : T) (i : Z) : T :=
  numA + (of_int i / of_int samples) * (numB - numA).

(** The guard before [xs.push]: [typeof] is ["number"] for every number. *)
Definition valid (x y : T) : bool := negb (isNaN x) && negb (isNaN y).

(** [for (let i = 0; i <= samples; i++)]; [fuel] is [samples + 1 - i]. *)
Fixpoint loop (numA numB : T) (fuel : nat) (i : Z) (xs : list point)
  : list point :=
  match fuel with
  | O => xs
  | S fuel' =>
      let x := abscissa numA numB i in
      let y := f x in
      loop numA numB fuel' (i + 1)%Z
        (if valid x y then xs ++ [mkPoint (toFixed6 x) (toFixed6 y)] else xs)
  end.

Definition sampleData (numA numB : T) : list point :=
  if isNaN numA || isNaN numB || nleb numB numA then []
  else loop numA numB (Z.to_nat (samples + 1)) 0 [].

End Sample.
End Sampler.

(** ** The plot sampler of the Newton component ([sampleData] and
    [derivativeData], lines 141-161): a window of width 6 around [x0], no
    guard on the bounds and no filter on the values *)

Module NewtonSampler.
Section Sample.
Context {T : Type} {N : Number T} {I : IEEE T}.
Local Open Scope num_scope.

(** [const range = 6] *)
Definition range : T := of_int 6.

Variable f : T -> T.

(** [x0 - range/2 + (i / samples) * range] *)
Definition abscissa (x0 : T) (i : Z) : T :=
  x0 - range / of_int 2 + (of_int i / of_int Sampler.samples) * range.

(** [for (let i = 0; i <= samples; i++)]; [fuel] is [samples + 1 - i]. *)
Fixpoint loop (x0 : T) (fuel : nat) (i : Z) (xs : list Sampler.point)
  : list Sampler.point :=
  match fuel with
  | O => xs
  | S fuel' =>
      let x := abscissa x0 i in
      loop x0 fuel' (i + 1)%Z (xs ++ [Sampler.mkPoint (toFixed6 x) (f x)])
  end.

(** [sampleData] with the objective, [derivativeData] with [df]. *)
Definition sampleData (x0 : T) : list Sampler.point :=
  loop x0 (Z.to_nat (Sampler.samples + 1)) 0 [].

End Sample.
End NewtonSampler.

(** ** The numeric differentiator (the [df] and [d2f] of a custom formula:
    [GoldenSection.jsx] lines 505-515, the Newton component lines 119-139) *)

Module Differentiator.
Section Differences.
Context {T : Type} {N : Number T}.
Local Open Scope num_scope.

(** [const h = 1e-6] *)
Definition h : T := of_int 1 / of_int (10 ^ 6).

Variable f : T -> T.

Definition firstDerivative (x : T) : T :=
  (f (x + h) - f (x - h)) / (of_int 2 * h).

Definition secondDerivative (x : T) : T :=
  (f (x + h) - of_int 2 * f x + f (x - h)) / (h * h).

End Differences.
End Differentiator.

(** ** The catalogue objective used in the examples:
    ["Parabola (x-2)^2 + 1"] of [FUNCTIONS], [DERIVATIVES] and
    [SECOND_DERIVATIVES] *)

Module Catalog.
Section Parabola.
Context {T : Type} {N : Number T}.
Local Open Scope num_scope.

Definition parabola (x : T) : T := (x - of_int 2) * (x - of_int 2) + of_int 1.
Definition parabola' (x : T) : T := of_int 2 * (x - of_int 2).
Definition parabola'' (x : T) : T := of_int 2.

End Parabola.
End Catalog.

(** ** The arithmetic of the components: binary64 *)

Module JS.

(** An integer literal; exact below [2^53]. *)
Definition float_of_Z (z : Z) : float :=
  match z with
  | Z0 => 0%float
  | Zpos _ => PrimFloat.of_uint63 (Uint63.of_Z z)
  | Zneg p => PrimFloat.opp (PrimFloat.of_uint63 (Uint63.of_Z (Zpos p)))
  end.

#[global] Instance float_Number : Number float := {|
  nadd := PrimFloat.add;
  nsub := PrimFloat.sub;
  nmul := PrimFloat.mul;
  ndiv := PrimFloat.div;
  nabs := PrimFloat.abs;
  nsqrt := PrimFloat.sqrt;
  nltb := PrimFloat.ltb;
  nleb := PrimFloat.leb;
  of_int := float_of_Z
|}.

(** [x.toFixed(6)] picks the integer [n] with [n / 10^6] nearest to the
    exact value of [|x|], the larger one on a tie; [half_up m e] is that
    [n] for [|x| = m * 2^e]. *)
Definition half_up (m : positive) (e : Z) : Z :=
  if (0 <=? e)%Z then Zpos m * 2 ^ e * 10 ^ 6
  else (2 * Zpos m * 10 ^ 6 + 2 ^ (- e)) / 2 ^ (1 - e).

(** [Number(x.toFixed(6))].  From [1e21] on [toFixed] prints the number
    itself; below, the decimal [n / 10^6] is read back as the nearest
    binary64, which is the correctly rounded quotient of the two exact
    operands while [n < 2^53], and [x] itself from there on (the decimal is
    then within [5e-7] of [x], less than half the gap to the next
    binary64). *)
Definition toFixed6_float (x : float) : float :=
  match Prim2SF x with
  | S754_nan => x
  | S754_infinity _ => x
  | S754_zero _ => 0%float
  | S754_finite s m e =>
      if PrimFloat.leb 1e21%float (PrimFloat.abs x) then x
      else
        let n := half_up m e in
        if (n <? 2 ^ 53)%Z then
          let r := PrimFloat.div (float_of_Z n) 1000000%float in
          if s then PrimFloat.opp r else r
        else x
  end.

#[global] Instance float_IEEE : IEEE float := {|
  NaN := PrimFloat.nan;
  isNaN := PrimFloat.is_nan;
  toFixed6 := toFixed6_float
|}.

End JS.

(** ** The arithmetic of the design: the real numbers *)

Module Exact.

#[global] Instance R_Number : Number R := {|
  nadd := Rplus;
  nsub := Rminus;
  nmul := Rmult;
  ndiv := Rdiv;
  nabs := Rabs;
  nsqrt := R_sqrt.sqrt;
  nltb := fun x y => if Rlt_dec x y then true else false;
  nleb := fun x y => if Rle_dec x y then true else false;
  of_int := IZR
|}.

End Exact.

(** ** The tables [FUNCTIONS], [DERIVATIVES] and [SECOND_DERIVATIVES]

    The two entries beside the parabola call [Math.sin] and [Math.cos],
    which the language leaves to the engine; they are operations of a
    class of their own. *)

Class Trig (T : Type) : Type := {
  nsin : T -> T;
  ncos : T -> T
}.

Module Tables.
Section Entries.
Context {T : Type} {N : Number T} {G : Trig T}.
Local Open Scope num_scope.

(** ["Multi-modal: (x-2)^2 + sin(5x)"] *)
Definition multimodal (x : T) : T :=
  (x - of_int 2) * (x - of_int 2) + nsin (of_int 5 * x).
Definition multimodal' (x : T) : T :=
  of_int 2 * (x - of_int 2) + of_int 5 * ncos (of_int 5 * x).
Definition multimodal'' (x : T) : T :=
  of_int 2 - of_int 25 * nsin (of_int 5 * x).

(** ["Rastrigin-like: x^2 + 5*cos(2x)"] *)
Definition rastrigin (x : T) : T := x * x + of_int 5 * ncos (of_int 2 * x).
Definition rastrigin' (x : T) : T :=
  of_int 2 * x - of_int 10 * nsin (of_int 2 * x).
Definition rastrigin'' (x : T) : T :=
  of_int 2 - of_int 20 * ncos (of_int 2 * x).

End Entries.

(** The real sine and cosine. *)
#[global] Instance R_Trig : Trig R := {| nsin := sin; ncos := cos |}.

End Tables.

(** * Part II: vocabulary of the statements *)

(** The bracket a golden-section state holds, and the two sides its [if]
    chooses between. *)
Module GoldenSectionSides.
Section Sides.
Context {T : Type} {N : Number T}.
Definition bracket (s : GoldenSection.state) : T * T :=
  (GoldenSection.a s, GoldenSection.b s).
Definition left_side (s : GoldenSection.state) : T * T :=
  (GoldenSection.a s, GoldenSection.d s).
Definition right_side (s : GoldenSection.state) : T * T :=
  (GoldenSection.c s, GoldenSection.b s).
End Sides.
End GoldenSectionSides.

Module FibonacciSides.
Section Sides.
Context {T : Type} {N : Number T}.
Definition bracket (s : Fibonacci.state) : T * T :=
  (Fibonacci.a s, Fibonacci.b s).
Definition left_side (s : Fibonacci.state) : T * T :=
  (Fibonacci.a s, Fibonacci.x2 s).
Definition right_side (s : Fibonacci.state) : T * T :=
  (Fibonacci.x1 s, Fibonacci.b s).
End Sides.
End FibonacciSides.

(** The indices [0, 1, ..., m - 1] of the iterations that push a record. *)
Definition passes (m : nat) : list nat := seq 0 m.

(** A search that stops at the head of iteration [k] of a budget of
    [maxIter] has pushed this many records. *)
Definition pushed (k maxIter : nat) : nat := Nat.min (S k) maxIter.

(** The orientation of a bracket around a minimum, in the comparisons of
    the program: not [f'(a) > 0] and not [f'(b) < 0]. *)
Module BisectionSigns.
Section Signs.
Context {T : Type} {N : Number T}.
Variable df : T -> T.
End Signs.
End BisectionSigns.

(** Why Newton's loop ended at the head of iteration [k], at the point
    [x], and the alerts it showed: the budget [fuel] is used up, or
    [|f'(x)| < tol], or [|f''(x)| < 1e-12] (with the alert). *)
Module NewtonEnding.
Section Ending.
Context {T : Type} {N : Number T}.
Variables df d2f : T -> T.
Definition nw_ending (tol x : T) (k fuel : nat) (alerts : list string) : Prop :=
  (k = fuel /\ alerts = []) \/
  ((k < fuel)%nat /\ Newton.converged df tol x = true /\ alerts = []) \/
  ((k < fuel)%nat /\ Newton.converged df tol x = false /\
   Newton.stalled d2f x = true /\ alerts = [Newton.msg_stall]).
End Ending.
End NewtonEnding.

(** A handler that only shows alerts has set no result. *)
Definition no_result {R : Type} (effects : list (Effect R)) : Prop :=
  forall r : R, ~ In (setResult r) effects.


(** The characters the filter of [parseCustomFunction] lets through, white
    space apart. *)
Module ParserSets.
Import Parser.

Definition allowed_set : jsstring :=
  js "x0123456789+-*/().,^|sincotalgepqrbwm".

(** The set the specification names: the class [[x0-9+\-*/().,\s]] and the
    letters of [sin cos tan log exp sqrt abs pow min max]. *)
Definition claimed_allowed (u : N) : bool :=
  isWhiteSpace u
  || existsb (N.eqb u) (js "x0123456789+-*/().,")
  || existsb (N.eqb u) (js "sincostanlogexpsqrtabspowminmax").

Fixpoint eqb_units (s t : jsstring) : bool :=
  match s, t with
  | [], [] => true
  | u :: s', v :: t' => N.eqb u v && eqb_units s' t'
  | _, _ => false
  end.

(** An engine that knows two function bodies and evaluates them as
    JavaScript does at [x = 1] ([x ** 2] is taken as [x * x], [1|2] is the
    bitwise or, [3]); every other body is a syntax error to it. *)
Definition sample_engine (body : jsstring)
  : string + Parser.callable (T := float) :=
  if eqb_units body (js "return x**2 - 4*x + 3") then
    inr (fun x => inr (x * x - 4 * x + 3)%float)
  else if eqb_units body (js "return 1|2") then
    inr (fun _ => inr 3%float)
  else inl "SyntaxError"%string.

End ParserSets.

(** The sample indices [0 .. 300], and what a plot needs of abscissae. *)
Module SamplerWords.

Section Words.
Context {T : Type} {N : Number T} {I : IEEE T}.
Variable f : T -> T.
Import Sampler.
(** What sample [i] contributes. *)
Definition sample_at (numA numB : T) (i : Z) : list point :=
  let x := abscissa numA numB i in
  if valid x (f x) then [mkPoint (toFixed6 x) (toFixed6 (f x))] else [].
End Words.

Definition indices : list Z := map Z.of_nat (seq 0 (Z.to_nat (Sampler.samples + 1))).

Fixpoint increasing (l : list float) : bool :=
  match l with
  | u :: ((v :: _) as l') => PrimFloat.ltb u v && increasing l'
  | _ => true
  end.

Definition finite_point (p : Sampler.point (T := float)) : bool :=
  PrimFloat.is_finite (Sampler.x p) && PrimFloat.is_finite (Sampler.y p).

End SamplerWords.

(** Brackets over the reals: [[a', b']] is a proper interval strictly
    inside [[a, b]]. *)
Module Nesting.
Local Open Scope R_scope.

Definition strictly_inside (inner outer : R * R) : Prop :=
  fst outer <= fst inner /\ snd inner <= snd outer /\
  (fst outer < fst inner \/ snd inner < snd outer) /\
  fst inner < snd inner.

Definition within (inner outer : R * R) : Prop :=
  fst outer <= fst inner /\ fst inner < snd inner /\ snd inner <= snd outer.

(** The ratio invariant of golden-section search: both interior points sit
    at the golden ratio of the current bracket. *)
Definition gs_inv (s : GoldenSection.state (T := R)) : Prop :=
  GoldenSection.a s < GoldenSection.b s /\
  GoldenSection.c s =
    GoldenSection.b s
    - (GoldenSection.b s - GoldenSection.a s) * / GoldenSection.phi /\
  GoldenSection.d s =
    GoldenSection.a s
    + (GoldenSection.b s - GoldenSection.a s) * / GoldenSection.phi.

End Nesting.

(** The Fibonacci array while the generating loop is about to write index
    [i]: it has [i] entries, none of them a hole, starts [1, 1] and obeys
    the recurrence. *)
Module FibonacciWords.
Section Words.
Context {T : Type} {N : Number T} {I : IEEE T}.
Import Fibonacci.
End Words.
End FibonacciWords.

(** The last element of a list, when it has one. *)
Definition final {A : Type} (l : list A) : option A :=
  nth_error l (Nat.pred (List.length l)).

(** The cached values of a state are the objective at its interior
    points. *)
Module Cached.
Section Cache.
Context {T : Type} {N : Number T}.
Variable f : T -> T.
Definition gs_cached (s : GoldenSection.state) : Prop :=
  GoldenSection.fc s = f (GoldenSection.c s) /\
  GoldenSection.fd s = f (GoldenSection.d s).
End Cache.
End Cached.

(** Over the reals: a function with a single valley at [xm] in [[a, b]], a
    derivative that changes sign at [xm] from negative to positive, and a
    quadratic. *)
Module Shapes.
Local Open Scope R_scope.

Definition unimodal (f : R -> R) (a b xm : R) : Prop :=
  a <= xm <= b /\
  (forall x y, a <= x -> x < y -> y <= xm -> f y < f x) /\
  (forall x y, xm <= x -> x < y -> y <= b -> f x < f y).

Definition crosses_up (df : R -> R) (a b xm : R) : Prop :=
  a <= xm <= b /\
  (forall x, a <= x -> x < xm -> df x < 0) /\
  (forall x, xm < x -> x <= b -> 0 < df x).

Definition quadratic (al be ga : R) (x : R) : R := al * x * x + be * x + ga.
Definition quadratic' (al be : R) (x : R) : R := 2 * al * x + be.
Definition quadratic'' (al : R) (x : R) : R := 2 * al.

End Shapes.

(** * Part III: facts *)

Lemma iterate_S_out {A : Type} (g : A -> A) (k : nat) (x : A) :
  iterate g (S k) x = g (iterate g k x).
Proof.
  revert x; induction k as [|k IH]; intro x; [reflexivity|].
  change (iterate g (S (S k)) x) with (iterate g (S k) (g x)).
  rewrite IH. reflexivity.
Qed.

Lemma pushed_S (k fuel : nat) : pushed (S k) (S fuel) = S (pushed k fuel).
Proof. reflexivity. Qed.

Lemma map_passes_S {A : Type} (g : nat -> A) (m : nat) :
  map g (passes (S m)) = g 0%nat :: map (fun j => g (S j)) (passes m).
Proof.
  unfold passes. cbn [seq map]. f_equal.
  rewrite <- seq_shift, map_map. reflexivity.
Qed.

(** ** The order laws at the two instances *)

Lemma SFcompare_Lt_swap (x y : spec_float) :
  SFcompare x y = Some Lt -> SFcompare y x = Some Gt.
Proof.
  destruct x as [sx|sx| |sx mx ex], y as [sy|sy| |sy my ey]; cbn;
    try discriminate; try (destruct sx; discriminate);
    try (destruct sy; discriminate);
    try (destruct sx, sy; (discriminate || reflexivity)).
  destruct sx, sy; try discriminate; try reflexivity.
  - rewrite (Z.compare_antisym ex ey).
    destruct (ex ?= ey)%Z eqn:E; cbn; try discriminate; try reflexivity.
    change (PosDef.Pos.compare_cont Eq my mx) with (Pos.compare my mx).
    change (PosDef.Pos.compare_cont Eq mx my) with (Pos.compare mx my).
    rewrite (Pos.compare_antisym mx my).
    destruct (mx ?= my)%positive; cbn; (discriminate || reflexivity).
  - rewrite (Z.compare_antisym ex ey).
    destruct (ex ?= ey)%Z eqn:E; cbn; try discriminate; try reflexivity.
    change (PosDef.Pos.compare_cont Eq my mx) with (Pos.compare my mx).
    change (PosDef.Pos.compare_cont Eq mx my) with (Pos.compare mx my).
    rewrite (Pos.compare_antisym mx my).
    destruct (mx ?= my)%positive; cbn; (discriminate || reflexivity).
Qed.

Lemma float_ltb_asym (x y : float) :
  PrimFloat.ltb x y = true -> PrimFloat.ltb y x = false.
Proof.
  rewrite !ltb_spec. unfold SFltb.
  destruct (SFcompare (Prim2SF x) (Prim2SF y)) as [[| |]|] eqn:E;
    try discriminate.
  intros _. rewrite (SFcompare_Lt_swap _ _ E). reflexivity.
Qed.

Lemma float_leb_not_ltb (x y : float) :
  PrimFloat.leb y x = true -> PrimFloat.ltb x y = false.
Proof.
  rewrite leb_spec, ltb_spec. unfold SFleb, SFltb.
  destruct (SFcompare (Prim2SF x) (Prim2SF y)) as [[| |]|] eqn:E;
    try reflexivity.
  rewrite (SFcompare_Lt_swap _ _ E). discriminate.
Qed.

#[global] Instance float_NumberLaws : NumberLaws float.
Proof.
  split; [exact float_ltb_asym | exact float_leb_not_ltb].
Qed.

#[global] Instance R_NumberLaws : NumberLaws R.
Proof.
  split; cbn; intros x y.
  - destruct (Rlt_dec x y), (Rlt_dec y x); try reflexivity; try discriminate.
    lra.
  - destruct (Rle_dec y x), (Rlt_dec x y); try reflexivity; try discriminate.
    lra.
Qed.

Lemma nltb_irrefl {T : Type} {N : Number T} {L : NumberLaws T} (x : T) :
  nltb x x = false.
Proof.
  destruct (nltb x x) eqn:E; [|reflexivity].
  rewrite (nltb_asym _ _ E) in E. discriminate.
Qed.

(** Two binary64 values of which one is below the other are different. *)
Lemma float_lt_neq (x y : float) : PrimFloat.ltb x y = true -> x <> y.
Proof.
  intros H E. subst y.
  pose proof (nltb_irrefl (T := float) x) as I. cbn in I. congruence.
Qed.

(** ** Golden-section search *)

Section GoldenSectionFacts.
Context {T : Type} {N : Number T}.
Variable f : T -> T.
Local Open Scope num_scope.
Import GoldenSection GoldenSectionSides.

Lemma gs_step_lt (s : state) :
  (fc s <? fd s) = true ->
  step f s =
    mkState (a s) (d s) (d s - (d s - a s) / phi) (c s)
            (f (d s - (d s - a s) / phi)) (fc s).
Proof. intro H. unfold step. rewrite H. reflexivity. Qed.

Lemma gs_step_ge (s : state) :
  (fc s <? fd s) = false ->
  step f s =
    mkState (c s) (b s) (d s) (c s + (b s - c s) / phi)
            (fd s) (f (c s + (b s - c s) / phi)).
Proof. intro H. unfold step. rewrite H. reflexivity. Qed.

(** What the [for] loop computes from any iteration on. *)
Lemma gs_loop_spec (tol : T) (fuel : nat) :
  forall (iter : nat) (s : state) (h : list record),
  exists k : nat,
    (k <= fuel)%nat /\
    (forall j, (j < k)%nat -> converged tol (iterate (step f) j s) = false) /\
    (k = fuel \/ converged tol (iterate (step f) k s) = true) /\
    loop f tol fuel iter s h =
      (iterate (step f) k s,
       h ++ map (fun j => record_of (iter + j) (iterate (step f) j s))
                (passes (pushed k fuel))).
Proof.
  induction fuel as [|fuel IH]; intros iter s h.
  - exists 0%nat. cbn. rewrite app_nil_r. repeat split; auto; intros; lia.
  - cbn [loop]. destruct (converged tol s) eqn:C.
    + exists 0%nat. repeat split; auto with arith; [intros; lia|].
      cbn. rewrite Nat.add_0_r. reflexivity.
    + destruct (IH (S iter) (step f s) (h ++ [record_of iter s]))
        as (k & Hk & Hno & Hend & Heq).
      exists (S k). repeat split.
      * lia.
      * intros [|j] Hj; [exact C|]. apply Hno. lia.
      * destruct Hend as [->|Hend]; [left; reflexivity|right; exact Hend].
      * rewrite Heq, pushed_S, map_passes_S, Nat.add_0_r, <- app_assoc.
        cbn [iterate app]. do 3 f_equal.
        apply map_ext. intro j. rewrite Nat.add_succ_r. reflexivity.
Qed.

(** C2.  Golden-section search: the interior points are
    [c = b - (b-a)/phi] and [d = a + (b-a)/phi] with [phi = (1+sqrt 5)/2];
    each pass keeps [[a, d]] when [f c < f d] and [[c, b]] otherwise, keeps
    the interior point and value of the retained side and evaluates [f]
    once, at the new interior point; the loop stops at the first iteration
    whose bracket has [|b - a| < tol], or after [maxIter] passes; in both
    cases [xOpt] is the midpoint of the final bracket and [fOpt = f xOpt],
    and [history] holds one record per iteration entered. *)
Theorem goldenSectionSearch_spec (a0 b0 tol : T) (maxIter : nat) :
  let st := state_at f a0 b0 in
  let res := goldenSectionSearch f a0 b0 tol maxIter in
  (phi = (of_int 1 + nsqrt (of_int 5)) / of_int 2 /\
   st 0%nat =
     mkState a0 b0 (b0 - (b0 - a0) / phi) (a0 + (b0 - a0) / phi)
             (f (b0 - (b0 - a0) / phi)) (f (a0 + (b0 - a0) / phi))) /\
  (forall j : nat,
     let s := st j in
     let s' := st (S j) in
     if fc s <? fd s then
       bracket s' = left_side s /\
       d s' = c s /\ fd s' = fc s /\
       c s' = b s' - (b s' - a s') / phi /\ fc s' = f (c s')
     else
       bracket s' = right_side s /\
       c s' = d s /\ fc s' = fd s /\
       d s' = a s' + (b s' - a s') / phi /\ fd s' = f (d s')) /\
  exists k : nat,
    (k <= maxIter)%nat /\
    (forall j, (j < k)%nat -> (nabs (b (st j) - a (st j)) <? tol) = false) /\
    (k = maxIter \/ (nabs (b (st k) - a (st k)) <? tol) = true) /\
    xOpt res = (a (st k) + b (st k)) / of_int 2 /\
    fOpt res = f (xOpt res) /\
    history res = map (fun j => record_of j (st j)) (passes (pushed k maxIter)).
Proof.
  intros st res. split; [split; reflexivity|]. split.
  - intro j. cbn zeta. unfold st, state_at. rewrite iterate_S_out.
    set (s := iterate (step f) j (init f a0 b0)).
    destruct (fc s <? fd s) eqn:E.
    + rewrite (gs_step_lt s E). cbn. repeat split; reflexivity.
    + rewrite (gs_step_ge s E). cbn. repeat split; reflexivity.
  - destruct (gs_loop_spec tol maxIter 0 (init f a0 b0) [])
      as (k & Hk & Hno & Hend & Heq).
    exists k. unfold res, goldenSectionSearch. rewrite Heq. cbn.
    repeat split; auto.
Qed.

End GoldenSectionFacts.

(** ** Bisection on the derivative *)

Section BisectionFacts.
Context {T : Type} {N : Number T}.
Variables f df : T -> T.
Local Open Scope num_scope.
Import Bisection BisectionSigns.

Lemma bis_loop_spec (tol : T) (fuel : nat) :
  forall (iter : nat) (s : state) (h : list record),
  exists k : nat,
    (k <= fuel)%nat /\
    (forall j, (j < k)%nat -> stop df tol (iterate (step df) j s) = false) /\
    (k = fuel \/ stop df tol (iterate (step df) k s) = true) /\
    loop f df tol fuel iter s h =
      (iterate (step df) k s,
       h ++ map (fun j => record_of f df (iter + j) (iterate (step df) j s))
                (passes (pushed k fuel))).
Proof.
  induction fuel as [|fuel IH]; intros iter s h.
  - exists 0%nat. cbn. rewrite app_nil_r. repeat split; auto; intros; lia.
  - cbn [loop]. destruct (stop df tol s) eqn:C.
    + exists 0%nat. repeat split; auto with arith; [intros; lia|].
      cbn. rewrite Nat.add_0_r. reflexivity.
    + destruct (IH (S iter) (step df s) (h ++ [record_of f df iter s]))
        as (k & Hk & Hno & Hend & Heq).
      exists (S k). repeat split.
      * lia.
      * intros [|j] Hj; [exact C|]. apply Hno. lia.
      * destruct Hend as [->|Hend]; [left; reflexivity|right; exact Hend].
      * rewrite Heq, pushed_S, map_passes_S, Nat.add_0_r, <- app_assoc.
        cbn [iterate app]. do 3 f_equal.
        apply map_ext. intro j. rewrite Nat.add_succ_r. reflexivity.
Qed.




End BisectionFacts.

(** ** Newton's method *)

Section NewtonFacts.
Context {T : Type} {N : Number T}.
Variables f df d2f : T -> T.
Local Open Scope num_scope.
Import Newton NewtonEnding.

Lemma nw_loop_spec (tol : T) (fuel : nat) :
  forall (iter : nat) (x : T) (h : list record),
  exists (k : nat) (alerts : list string),
    (k <= fuel)%nat /\
    (forall j, (j < k)%nat ->
       converged df tol (iterate (step df d2f) j x) = false /\
       stalled d2f (iterate (step df d2f) j x) = false) /\
    nw_ending df d2f tol (iterate (step df d2f) k x) k fuel alerts /\
    loop f df d2f tol fuel iter x h =
      (iterate (step df d2f) k x,
       h ++ map (fun j => record_of f df d2f (iter + j)
                            (iterate (step df d2f) j x))
                (passes (pushed k fuel)),
       alerts).
Proof.
  induction fuel as [|fuel IH]; intros iter x h.
  - exists 0%nat, []. cbn. rewrite app_nil_r.
    repeat split; auto; [intros; lia..|left; auto].
  - cbn [loop]. destruct (converged df tol x) eqn:C.
    + exists 0%nat, []. repeat split; auto with arith; try (intros; lia).
      * right; left. repeat split; auto with arith.
      * cbn. rewrite Nat.add_0_r. reflexivity.
    + destruct (stalled d2f x) eqn:St.
      * exists 0%nat, [msg_stall].
        repeat split; auto with arith; try (intros; lia).
        -- right; right. repeat split; auto with arith.
        -- cbn. rewrite Nat.add_0_r. reflexivity.
      * destruct (IH (S iter) (step df d2f x)
                     (h ++ [record_of f df d2f iter x]))
          as (k & al & Hk & Hno & Hend & Heq).
        exists (S k), al. repeat split.
        -- lia.
        -- destruct j as [|j]; [exact C|]. apply Hno. lia.
        -- destruct j as [|j]; [exact St|]. apply Hno. lia.
        -- cbn [iterate]. unfold nw_ending in *.
           destruct Hend as [[-> ->]|[(Hl & Hc & ->)|(Hl & Hc & Hs & ->)]].
           ++ left; auto.
           ++ right; left. repeat split; auto. lia.
           ++ right; right. repeat split; auto. lia.
        -- rewrite Heq, pushed_S, map_passes_S, Nat.add_0_r, <- app_assoc.
           cbn [iterate app]. do 4 f_equal.
           apply map_ext. intro j. rewrite Nat.add_succ_r. reflexivity.
Qed.

End NewtonFacts.

Section NewtonClaims.
Context {T : Type} {N : Number T}.
Variables f df d2f : T -> T.
Local Open Scope num_scope.
Import Newton NewtonEnding.

(** C5.  Newton's method replaces [x] by [x - f'(x)/f''(x)]; it stops at
    the first iteration with [|f'(x)| < tol] (convergence) or
    [|f''(x)| < 1e-12] (stall, with an alert), or after [maxIter] updates.
    Whenever an iteration is entered at a point with [|f''(x)| < 1e-12] the
    call still returns: [xOpt] is that point, the last one computed,
    [fOpt] its value, and [history] the records pushed so far, the one of
    the stalling iteration included. *)
Theorem newtonMethod_spec (x0 tol : T) (maxIter : nat) :
  let xs := point_at df d2f x0 in
  let res := fst (newtonMethod f df d2f x0 tol maxIter) in
  let alerts := snd (newtonMethod f df d2f x0 tol maxIter) in
  (xs 0%nat = x0 /\
   forall j : nat, xs (S j) = xs j - df (xs j) / d2f (xs j)) /\
  (exists k : nat,
     (k <= maxIter)%nat /\
     (forall j, (j < k)%nat ->
        (nabs (df (xs j)) <? tol) = false /\
        (nabs (d2f (xs j)) <? stall_threshold) = false) /\
     xOpt res = xs k /\ fOpt res = f (xs k) /\
     history res =
       map (fun j => record_of f df d2f j (xs j)) (passes (pushed k maxIter)) /\
     nw_ending df d2f tol (xs k) k maxIter alerts) /\
  (forall k : nat,
     (k < maxIter)%nat ->
     (forall j, (j < k)%nat ->
        (nabs (df (xs j)) <? tol) = false /\
        (nabs (d2f (xs j)) <? stall_threshold) = false) ->
     (nabs (d2f (xs k)) <? stall_threshold) = true ->
     xOpt res = xs k /\ fOpt res = f (xs k) /\
     history res = map (fun j => record_of f df d2f j (xs j)) (passes (S k)) /\
     alerts = if nabs (df (xs k)) <? tol then [] else [msg_stall]).
Proof.
  intros xs res alerts.
  destruct (nw_loop_spec f df d2f tol maxIter 0 x0 [])
    as (k & al & Hk & Hno & Hend & Heq).
  assert (Hres : res = mkResult (xs k) (f (xs k))
            (map (fun j => record_of f df d2f j (xs j))
                 (passes (pushed k maxIter))) /\ alerts = al).
  { unfold res, alerts, newtonMethod. rewrite Heq. cbn. split; reflexivity. }
  destruct Hres as [Hres Hal].
  subst xs. unfold point_at in *. unfold nw_ending, converged, stalled in *.
  split; [|split].
  - split; [reflexivity|]. intro j. rewrite iterate_S_out. reflexivity.
  - exists k. rewrite Hres, Hal. cbn. repeat split; auto; apply Hno; auto.
  - intros k' Hk' Hno' Hst.
    assert (k = k') as ->.
    { destruct (Nat.lt_trichotomy k k') as [Hlt|[Heq'|Hgt]]; [|exact Heq'|].
      - exfalso. destruct (Hno' k Hlt) as [Hc Hs].
        destruct Hend as [[-> _]|[(_ & Hc' & _)|(_ & _ & Hs' & _)]].
        + lia.
        + congruence.
        + congruence.
      - exfalso. destruct (Hno k' Hgt) as [_ Hs]. congruence. }
    rewrite Hres, Hal. cbn [xOpt fOpt history].
    replace (pushed k' maxIter) with (S k') by (unfold pushed; lia).
    do 3 (split; [reflexivity|]).
    destruct Hend as [[-> _]|[(_ & Hc' & ->)|(_ & Hc' & _ & ->)]].
    + lia.
    + rewrite Hc'. reflexivity.
    + rewrite Hc'. reflexivity.
Qed.

End NewtonClaims.

(** ** Fibonacci search *)

Section FibonacciFacts.
Context {T : Type} {N : Number T} {I : IEEE T}.
Local Open Scope num_scope.
Import Fibonacci FibonacciWords.










Variable f : T -> T.



End FibonacciFacts.

(** ** The tie-break of the two value-comparing searches *)

Section TieBreak.
Context {T : Type} {N : Number T} {L : NumberLaws T} {I : IEEE T}.
Variable f : T -> T.
Local Open Scope num_scope.

(** C1, as the program has it.  Golden-section and Fibonacci search compare
    the two interior values with a strict [<]: when the first-compared
    value is smaller the left side ([[a, d]], [[a, x2]]) is kept, and in
    every other case, exact ties included, the right side ([[c, b]],
    [[x1, b]]). *)
Theorem tie_break_keeps_right_side (fib : Fibonacci.jsarray) :
  (forall s : GoldenSection.state,
     let s' := GoldenSection.step f s in
     ((GoldenSection.fc s <? GoldenSection.fd s) = true ->
        GoldenSectionSides.bracket s' = GoldenSectionSides.left_side s) /\
     ((GoldenSection.fc s <? GoldenSection.fd s) = false ->
        GoldenSectionSides.bracket s' = GoldenSectionSides.right_side s) /\
     (GoldenSection.fc s = GoldenSection.fd s ->
        GoldenSectionSides.bracket s' = GoldenSectionSides.right_side s)) /\
  (forall s : Fibonacci.state,
     let s' := Fibonacci.step f fib s in
     ((Fibonacci.f1 s <? Fibonacci.f2 s) = true ->
        FibonacciSides.bracket s' = FibonacciSides.left_side s) /\
     ((Fibonacci.f1 s <? Fibonacci.f2 s) = false ->
        FibonacciSides.bracket s' = FibonacciSides.right_side s) /\
     (Fibonacci.f1 s = Fibonacci.f2 s ->
        FibonacciSides.bracket s' = FibonacciSides.right_side s)).
Proof.
  split; intros s s'; subst s'.
  - assert (Hge : (GoldenSection.fc s <? GoldenSection.fd s) = false ->
              GoldenSectionSides.bracket (GoldenSection.step f s) =
              GoldenSectionSides.right_side s).
    { intro H. unfold GoldenSection.step. rewrite H. reflexivity. }
    repeat split.
    + intro H. unfold GoldenSection.step. rewrite H. reflexivity.
    + exact Hge.
    + intro E. apply Hge. rewrite E. apply nltb_irrefl.
  - assert (Hge : (Fibonacci.f1 s <? Fibonacci.f2 s) = false ->
              FibonacciSides.bracket (Fibonacci.step f fib s) =
              FibonacciSides.right_side s).
    { intro H. unfold Fibonacci.step. rewrite H. reflexivity. }
    repeat split.
    + intro H. unfold Fibonacci.step. rewrite H. reflexivity.
    + exact Hge.
    + intro E. apply Hge. rewrite E. apply nltb_irrefl.
Qed.

End TieBreak.

(** ** The guards of the [run] handlers *)

Section RunGuards.
Context {T : Type} {N : Number T} {L : NumberLaws T} {I : IEEE T}.
Variables f df : T -> T.
Variable newFunction : Parser.jsstring -> string + Parser.callable (T := T).
Local Open Scope num_scope.

Lemma single_alert_no_result {R : Type} (m : string) :
  no_result (R := R) [alert m].
Proof. intros r [H|[]]. discriminate. Qed.

(** C6.  Each [run] handler tests its preconditions before it calls the
    search: when [a >= b] (golden-section, bisection, Fibonacci), when
    [f'(a) * f'(b) > 0] (bisection) or when [n < 2] (Fibonacci) all it does
    is show one alert; the search is not called and no result is set. *)
Theorem run_precondition_violation
  (custom : option Parser.jsstring) (na nb ntol : T) (nmax : nat) (nn : Z) :
  let gs := GoldenSection.run f newFunction custom na nb ntol nmax in
  let bis := Bisection.run f df newFunction custom na nb ntol nmax in
  let fib := Fibonacci.run f newFunction custom na nb nn in
  (nleb nb na = true ->
     gs = [alert msg_bracket] /\ bis = [alert msg_bracket] /\
     fib = [alert msg_bracket]) /\
  ((of_int 0 <? df na * df nb) = true ->
     bis = [alert (if na <? nb then Bisection.msg_sign else msg_bracket)]) /\
  ((nn < 2)%Z ->
     fib = [alert (if na <? nb then Fibonacci.msg_iterations
                   else msg_bracket)]) /\
  (nleb nb na = true -> no_result gs) /\
  (nleb nb na = true \/ (of_int 0 <? df na * df nb) = true ->
     no_result bis) /\
  (nleb nb na = true \/ (nn < 2)%Z -> no_result fib).
Proof.
  intros gs bis fib.
  assert (Hbracket : nleb nb na = true ->
            gs = [alert msg_bracket] /\ bis = [alert msg_bracket] /\
            fib = [alert msg_bracket]).
  { intro H. apply nleb_not_nltb in H.
    unfold gs, bis, fib, GoldenSection.run, Bisection.run, Fibonacci.run.
    rewrite H. cbn. auto. }
  assert (Hsign : (of_int 0 <? df na * df nb) = true ->
            bis = [alert (if na <? nb then Bisection.msg_sign
                          else msg_bracket)]).
  { intro H. unfold bis, Bisection.run.
    destruct (na <? nb); cbn; [rewrite H|]; reflexivity. }
  assert (Hcount : (nn < 2)%Z ->
            fib = [alert (if na <? nb then Fibonacci.msg_iterations
                          else msg_bracket)]).
  { intro H. unfold fib, Fibonacci.run.
    destruct (na <? nb); cbn; [|reflexivity].
    destruct (Z.ltb_spec nn 2); [reflexivity|lia]. }
  split; [exact Hbracket|]. split; [exact Hsign|]. split; [exact Hcount|].
  split; [|split].
  - intro H. destruct (Hbracket H) as (-> & _).
    apply single_alert_no_result.
  - intros [H|H].
    + destruct (Hbracket H) as (_ & -> & _). apply single_alert_no_result.
    + rewrite (Hsign H). apply single_alert_no_result.
  - intros [H|H].
    + destruct (Hbracket H) as (_ & _ & ->). apply single_alert_no_result.
    + rewrite (Hcount H). apply single_alert_no_result.
Qed.

End RunGuards.

(** ** Determinism *)

Section Determinism.
Context {T : Type} {N : Number T} {I : IEEE T}.
Variables f g df dg d2f d2g : T -> T.
Hypothesis f_g : forall x : T, f x = g x.
Hypothesis df_dg : forall x : T, df x = dg x.
Hypothesis d2f_d2g : forall x : T, d2f x = d2g x.











End Determinism.

Section DeterminismClaim.
Context {T : Type} {N : Number T} {I : IEEE T}.


End DeterminismClaim.

(** ** The formula filter *)

Section ParserFacts.
Context {T : Type} {NT : Number T}.
Variable newFunction : Parser.jsstring -> string + Parser.callable (T := T).
Import Parser ParserSets.

Lemma inClass_spec (u : N) :
  inClass u = isWhiteSpace u || existsb (N.eqb u) allowed_set.
Proof.
  unfold inClass.
  change (js "+-*/().")
    with (ltac:(let v := eval vm_compute in (js "+-*/().") in exact v)).
  change (js ",^sin|cos|tan|log|exp|sqrt|abs|pow|min|max")
    with (ltac:(let v := eval vm_compute in
                  (js ",^sin|cos|tan|log|exp|sqrt|abs|pow|min|max") in
                exact v)).
  change allowed_set
    with (ltac:(let v := eval vm_compute in allowed_set in exact v)).
  cbn [existsb].
  repeat match goal with
  | |- context [N.eqb u ?c] =>
      destruct (N.eqb_spec u c) as [->|?]; [vm_compute; reflexivity|]
  end.
  destruct (isWhiteSpace u); cbn.
  - rewrite !orb_true_r. reflexivity.
  - destruct (N.leb_spec 48 u), (N.leb_spec u 57); cbn; try reflexivity. lia.
Qed.

Lemma allowedChars_false (s : jsstring) :
  s = [] \/ (exists u, In u s /\ inClass u = false) ->
  allowedChars s = false.
Proof.
  intros [->|(u & Hin & Hu)]; [reflexivity|].
  destruct s as [|v s]; [reflexivity|]. unfold allowedChars.
  destruct (forallb inClass (v :: s)) eqn:E; [|reflexivity].
  rewrite forallb_forall in E. rewrite (E u Hin) in Hu. discriminate.
Qed.

Lemma parse_rejects (s : jsstring) :
  allowedChars (trim s) = false ->
  parseCustomFunction newFunction s = inl (msg_prefix ++ msg_chars)%string.
Proof. intro H. unfold parseCustomFunction. rewrite H. reflexivity. Qed.

Lemma parse_accepted (s : jsstring) :
  allowedChars (trim s) = true ->
  parseCustomFunction newFunction s =
    match newFunction (js "return " ++ processedFunc (trim s)) with
    | inl m => inl (msg_prefix ++ m)%string
    | inr func =>
        match func (of_int 1) with
        | inl m => inl (msg_prefix ++ m)%string
        | inr _ => inr func
        end
    end.
Proof. intro H. unfold parseCustomFunction. rewrite H. reflexivity. Qed.

(** A formula that [parseCustomFunction] refuses stops every handler. *)
Lemma run_invalid_formula {I : IEEE T} (f df d2f : T -> T)
  (s : jsstring) (m : string) (na nb ntol : T) (nmax : nat) (nn : Z) :
  parseCustomFunction newFunction s = inl m ->
  no_result (GoldenSection.run f newFunction (Some s) na nb ntol nmax) /\
  no_result (Bisection.run f df newFunction (Some s) na nb ntol nmax) /\
  no_result (Fibonacci.run f newFunction (Some s) na nb nn) /\
  no_result (Newton.run f df d2f newFunction (Some s) na ntol nmax).
Proof.
  intro H.
  assert (V : validate newFunction (Some s) = Some (msg_custom ++ m)%string)
    by (unfold validate; rewrite H; reflexivity).
  unfold GoldenSection.run, Bisection.run, Fibonacci.run, Newton.run.
  rewrite V. repeat split.
  - destruct (nltb na nb); intros r [E|[]]; discriminate.
  - destruct (nltb na nb); cbn; [|intros r [E|[]]; discriminate].
    destruct (nltb (of_int 0) (nmul (df na) (df nb)));
      intros r [E|[]]; discriminate.
  - destruct (nltb na nb); cbn; [|intros r [E|[]]; discriminate].
    destruct (nn <? 2)%Z; intros r [E|[]]; discriminate.
  - intros r [E|[]]; discriminate.
Qed.

End ParserFacts.

Section ParserClaims.
Variable newFunction : Parser.jsstring -> string + Parser.callable (T := float).
Import Parser ParserSets.

Lemma In_allowed_set (u : N) :
  existsb (N.eqb u) allowed_set = true <-> In u allowed_set.
Proof.
  rewrite existsb_exists. split.
  - intros (v & Hin & E). apply N.eqb_eq in E. subst v. exact Hin.
  - intro Hin. exists u. split; [exact Hin|apply N.eqb_refl].
Qed.

(** C7, as the program has it.  [parseCustomFunction] trims the formula
    and refuses it, with the message "Error en la función: Función contiene
    caracteres no permitidos", when it is empty or holds a character that
    is neither white space nor one of
    [x 0-9 + - * / ( ) . , ^ |  s i n c o t a l g e p q r b w m]; so it
    refuses ["bad$chars"].  A formula that passes is rewritten ([^] to
    [**], [sin(] to [Math.sin(], ...), compiled, and called once at
    [x = 1]: a compile error or a throw there makes [parseCustomFunction]
    fail with the engine's message.  ["x^2 - 4*x + 3"] passes as the body
    [return x**2 - 4*x + 3], whose callable returns [0] at [x = 1].  A
    refused formula stops every [run] handler before the search. *)
Theorem parseCustomFunction_spec (s : jsstring) :
  (forall u : N,
     inClass u = true <-> isWhiteSpace u = true \/ In u allowed_set) /\
  (trim s = [] \/
   (exists u, In u (trim s) /\ isWhiteSpace u = false /\ ~ In u allowed_set) ->
   parseCustomFunction newFunction s = inl (msg_prefix ++ msg_chars)%string) /\
  parseCustomFunction newFunction (js "bad$chars") =
    inl (msg_prefix ++ msg_chars)%string /\
  (allowedChars (trim s) = true ->
   parseCustomFunction newFunction s =
     match newFunction (js "return " ++ processedFunc (trim s)) with
     | inl m => inl (msg_prefix ++ m)%string
     | inr func =>
         match func 1%float with
         | inl m => inl (msg_prefix ++ m)%string
         | inr _ => inr func
         end
     end) /\
  (forall (m : string) (f df d2f : float -> float)
          (na nb ntol : float) (nmax : nat) (nn : Z),
     parseCustomFunction newFunction s = inl m ->
     no_result (GoldenSection.run f newFunction (Some s) na nb ntol nmax) /\
     no_result (Bisection.run f df newFunction (Some s) na nb ntol nmax) /\
     no_result (Fibonacci.run f newFunction (Some s) na nb nn) /\
     no_result (Newton.run f df d2f newFunction (Some s) na ntol nmax)) /\
  (processedFunc (trim (js "x^2 - 4*x + 3")) = js "x**2 - 4*x + 3" /\
   forall g : Parser.callable (T := float),
     newFunction (js "return x**2 - 4*x + 3") = inr g ->
     g 1%float = inr (1 * 1 - 4 * 1 + 3)%float ->
     parseCustomFunction newFunction (js "x^2 - 4*x + 3") = inr g /\
     g 1%float = inr 0%float).
Proof.
  assert (Hclass : forall u : N,
            inClass u = true <-> isWhiteSpace u = true \/ In u allowed_set).
  { intro u. rewrite inClass_spec, orb_true_iff, In_allowed_set. tauto. }
  split; [exact Hclass|]. split; [|split; [|split; [|split]]].
  - intros [H|(u & Hin & Hw & Hn)]; apply parse_rejects, allowedChars_false.
    + left; exact H.
    + right. exists u. split; [exact Hin|].
      destruct (inClass u) eqn:E; [|reflexivity].
      apply Hclass in E. destruct E as [E|E]; [congruence|contradiction].
  - apply parse_rejects. vm_compute. reflexivity.
  - intro H. rewrite (parse_accepted newFunction s H). reflexivity.
  - intros m f df d2f na nb ntol nmax nn H.
    exact (run_invalid_formula newFunction f df d2f s na nb ntol nmax nn H).
  - split; [vm_compute; reflexivity|].
    intros g Hg H1.
    assert (Hok : allowedChars (trim (js "x^2 - 4*x + 3")) = true)
      by (vm_compute; reflexivity).
    rewrite (parse_accepted newFunction _ Hok).
    assert (Hbody : (js "return " ++ processedFunc (trim (js "x^2 - 4*x + 3")))
                    = js "return x**2 - 4*x + 3") by (vm_compute; reflexivity).
    rewrite Hbody, Hg.
    change (of_int 1) with 1%float. rewrite H1. split; [reflexivity|].
    reflexivity.
Qed.

End ParserClaims.

Section ParserExamples.
Import Parser ParserSets.

(** The witness of C7: the sample engine, and the formula of the
    specification. *)
Lemma parseCustomFunction_spec_witness :
  allowedChars (trim (js "x^2 - 4*x + 3")) = true /\
  sample_engine (js "return x**2 - 4*x + 3")
    = inr (fun x => inr (x * x - 4 * x + 3)%float) /\
  parseCustomFunction sample_engine (js "x^2 - 4*x + 3")
    = inr (fun x => inr (x * x - 4 * x + 3)%float) /\
  parseCustomFunction sample_engine (js " 2*y ")
    = inl (msg_prefix ++ msg_chars)%string.
Proof.
  pose proof (parseCustomFunction_spec sample_engine (js "x^2 - 4*x + 3"))
    as (_ & _ & _ & _ & _ & _ & H).
  pose proof (parseCustomFunction_spec sample_engine (js " 2*y "))
    as (_ & Hrej & _).
  split; [vm_compute; reflexivity|]. split; [reflexivity|]. split.
  - refine (proj1 (H _ _ _)); reflexivity.
  - apply Hrej. right. exists 121%N. split; [vm_compute; auto|].
    split; [reflexivity|]. vm_compute. intuition discriminate.
Defined.

(** C7 as the specification words it fails on the formula of its own
    example and on a bitwise or: both hold a character outside the class
    [[x0-9+\-*/().,\s]] and the letters of the function names, and
    [parseCustomFunction] accepts both. *)
Lemma parseCustomFunction_accepts_caret_and_bar :
  (existsb (fun u => negb (claimed_allowed u)) (js "x^2 - 4*x + 3") = true /\
   exists g, parseCustomFunction sample_engine (js "x^2 - 4*x + 3") = inr g) /\
  (existsb (fun u => negb (claimed_allowed u)) (js "1|2") = true /\
   exists g, parseCustomFunction sample_engine (js "1|2") = inr g).
Proof.
  split; (split; [vm_compute; reflexivity|]); eexists; reflexivity.
Qed.

End ParserExamples.

(** ** The sampler *)

Section SamplerFacts.
Context {T : Type} {N : Number T} {I : IEEE T}.
Variable f : T -> T.
Import Sampler SamplerWords.

Lemma sampler_loop_spec (numA numB : T) (fuel : nat) :
  forall (i : Z) (xs : list point),
  loop f numA numB fuel i xs =
    xs ++ flat_map (sample_at f numA numB)
            (map (fun t => (i + Z.of_nat t)%Z) (seq 0 fuel)).
Proof.
  induction fuel as [|fuel IH]; intros i xs.
  - cbn. rewrite app_nil_r. reflexivity.
  - cbn [loop]. rewrite IH. cbn [seq map flat_map].
    rewrite <- seq_shift, map_map, Z.add_0_r.
    replace (map (fun t => (i + 1 + Z.of_nat t)%Z) (seq 0 fuel))
      with (map (fun t => (i + Z.of_nat (S t))%Z) (seq 0 fuel))
      by (apply map_ext; intro t; lia).
    assert (Hs : sample_at f numA numB i =
              if valid (abscissa numA numB i) (f (abscissa numA numB i))
              then [mkPoint (toFixed6 (abscissa numA numB i))
                            (toFixed6 (f (abscissa numA numB i)))]
              else []) by reflexivity.
    rewrite Hs.
    destruct (valid (abscissa numA numB i) (f (abscissa numA numB i)));
      cbn [app]; rewrite <- ?app_assoc; reflexivity.
Qed.

Lemma sampleData_grid (numA numB : T) :
  isNaN numA || isNaN numB || nleb numB numA = false ->
  sampleData f numA numB =
    flat_map (sample_at f numA numB) SamplerWords.indices.
Proof.
  intro H. unfold sampleData. rewrite H, sampler_loop_spec. cbn [app].
  reflexivity.
Qed.

Lemma flat_map_singletons {A B : Type} (g : A -> list B) (h : A -> B)
  (l : list A) :
  (forall i, In i l -> g i = [h i]) -> flat_map g l = map h l.
Proof.
  induction l as [|i l IH]; intro H; [reflexivity|].
  cbn. rewrite (H i) by (left; reflexivity). cbn. f_equal.
  apply IH. intros j Hj. apply H. right. exact Hj.
Qed.

End SamplerFacts.

Section SamplerClaims.
Variable f : float -> float.
Import Sampler SamplerWords.
Local Open Scope float_scope.

(** C8, as the program has it.  For [a < b] the sampler walks the 301
    indices [i = 0 .. 300] in order, takes [x = a + (i/300) * (b - a)] and
    [y = f x], skips the pair when [x] or [y] is NaN (an infinite value is
    kept) and pushes both rounded to six decimals.  Over [[-2, 5]], for an
    objective that is not NaN on the grid, it returns exactly 301 points,
    with finite abscissae that increase strictly from [-2] to [5]. *)
Theorem sampleData_spec (numA numB : float) :
  (isNaN numA || isNaN numB || nleb numB numA = true ->
   sampleData f numA numB = []) /\
  (isNaN numA || isNaN numB || nleb numB numA = false ->
   sampleData f numA numB =
     flat_map
       (fun i =>
          let x := abscissa numA numB i in
          if negb (isNaN x) && negb (isNaN (f x))
          then [mkPoint (toFixed6 x) (toFixed6 (f x))] else [])
       indices) /\
  ((forall i, In i indices -> isNaN (f (abscissa (-2) 5 i)) = false) ->
   let pts := sampleData f (-2) 5 in
   List.length pts = 301%nat /\
   map x pts = map (fun i => toFixed6 (abscissa (-2) 5 i)) indices /\
   map y pts = map (fun i => toFixed6 (f (abscissa (-2) 5 i))) indices /\
   increasing (map x pts) = true /\
   forallb PrimFloat.is_finite (map x pts) = true /\
   hd 0 (map x pts) = (-2) /\ last (map x pts) 0 = 5).
Proof.
  split; [|split].
  - intro H. unfold sampleData. rewrite H. reflexivity.
  - intro H. rewrite (sampleData_grid f numA numB H). reflexivity.
  - intros Hf pts.
    assert (Hgrid : forallb (fun i => negb (isNaN (abscissa (-2) 5 i)))
                      indices = true) by (vm_compute; reflexivity).
    rewrite forallb_forall in Hgrid.
    assert (Hpts : pts =
              map (fun i => mkPoint (toFixed6 (abscissa (-2) 5 i))
                                    (toFixed6 (f (abscissa (-2) 5 i))))
                  indices).
    { unfold pts. rewrite sampleData_grid by (vm_compute; reflexivity).
      apply flat_map_singletons. intros i Hi. unfold sample_at, valid.
      rewrite (Hf i Hi), (Hgrid i Hi). reflexivity. }
    assert (Hx : map x pts = map (fun i => toFixed6 (abscissa (-2) 5 i)) indices)
      by (rewrite Hpts, map_map; reflexivity).
    split; [rewrite Hpts, length_map; reflexivity|].
    split; [exact Hx|].
    split; [rewrite Hpts, map_map; reflexivity|].
    rewrite Hx. repeat split; vm_compute; reflexivity.
Qed.

End SamplerClaims.

Section SamplerExamples.
Import Sampler SamplerWords.
Local Open Scope float_scope.

(** The witness of C8: the parabola of the catalogue over [[-2, 5]]. *)
Lemma sampleData_spec_witness :
  (forall i, In i indices ->
     isNaN (Catalog.parabola (abscissa (-2) 5 i)) = false) /\
  List.length (sampleData Catalog.parabola (-2) 5) = 301%nat /\
  increasing (map x (sampleData Catalog.parabola (-2) 5)) = true.
Proof.
  assert (H : forall i, In i indices ->
            isNaN (Catalog.parabola (abscissa (-2) 5 i)) = false).
  { assert (E : forallb (fun i => negb
                   (isNaN (Catalog.parabola (abscissa (-2) 5 i))))
                  indices = true) by (vm_compute; reflexivity).
    rewrite forallb_forall in E. intros i Hi.
    apply negb_true_iff. exact (E i Hi). }
  split; [exact H|].
  destruct (sampleData_spec Catalog.parabola (-2) 5) as (_ & _ & S).
  destruct (S H) as (Hlen & _ & _ & Hinc & _).
  split; [exact Hlen|exact Hinc].
Defined.

(** C8 as the specification words it fails on [1/x] over [[-1, 1]]: the
    sample at [x = 0] has the value [Infinity], which is not NaN, and is
    returned; and over [[0, 0.0001]] the abscissae, rounded to six
    decimals, repeat. *)
Lemma sampleData_keeps_infinity :
  let pts := sampleData (fun x => 1 / x) (-1) 1 in
  nth_error pts 150 = Some (mkPoint 0 infinity) /\
  forallb finite_point pts = false /\
  increasing (map x (sampleData Catalog.parabola 0 0.0001)) = false.
Proof. repeat split; vm_compute; reflexivity. Qed.

End SamplerExamples.

(** ** Bracket nesting in exact arithmetic *)

Lemma nth_error_map_passes {A : Type} (g : nat -> A) (m j : nat) (r : A) :
  nth_error (map g (passes m)) j = Some r -> (j < m)%nat /\ r = g j.
Proof.
  intro H.
  assert (Hlt : (j < m)%nat).
  { assert (Hn : nth_error (map g (passes m)) j <> None) by congruence.
    apply nth_error_Some in Hn.
    unfold passes in Hn. rewrite length_map, length_seq in Hn. exact Hn. }
  split; [exact Hlt|].
  unfold passes in H. rewrite nth_error_map in H.
  rewrite (nth_error_nth' (seq 0 m) 0%nat) in H
    by (rewrite length_seq; exact Hlt).
  rewrite seq_nth in H by exact Hlt. cbn in H. congruence.
Qed.

Section ExactGoldenSection.
Variable f : R -> R.
Import GoldenSection Nesting.
Local Open Scope R_scope.

Lemma sqrt5_bounds : 2 < sqrt 5 < 3.
Proof.
  pose proof (sqrt_sqrt 5 ltac:(lra)) as H.
  pose proof (sqrt_pos 5) as P. nra.
Qed.

Lemma phi_exact : phi (T := R) = (1 + sqrt 5) / 2.
Proof. reflexivity. Qed.

Lemma inv_phi_exact : / phi (T := R) = (sqrt 5 - 1) / 2.
Proof.
  rewrite phi_exact. pose proof sqrt5_bounds as B.
  pose proof (sqrt_sqrt 5 ltac:(lra)) as H5.
  apply Rmult_eq_reg_l with ((1 + sqrt 5) / 2); [|lra].
  rewrite Rinv_r by lra. nra.
Qed.

(** The golden ratio identity the reuse of an interior point rests on. *)
Lemma inv_phi_facts :
  let r := / phi (T := R) in 1 / 2 < r < 1 /\ r * r = 1 - r.
Proof.
  cbn zeta. rewrite inv_phi_exact. pose proof sqrt5_bounds as B.
  pose proof (sqrt_sqrt 5 ltac:(lra)) as H5.
  split; [lra|nra].
Qed.

Lemma gs_init_inv (a0 b0 : R) : a0 < b0 -> gs_inv (init f a0 b0).
Proof. intro H. unfold gs_inv, init. cbn. repeat split; auto. Qed.

Lemma gs_step_inv (s : state) :
  gs_inv s ->
  gs_inv (step f s) /\
  strictly_inside (a (step f s), b (step f s)) (a s, b s).
Proof.
  intros (Hab & Hc & Hd).
  destruct inv_phi_facts as ((Hr1 & Hr2) & Hr).
  set (r := / phi) in *.
  unfold step, gs_inv, strictly_inside.
  destruct (nltb (fc s) (fd s)); cbn -[phi]; fold r;
    rewrite Hd, Hc; repeat split; try nra.
Qed.

Lemma gs_states_inv (a0 b0 : R) (j : nat) :
  a0 < b0 ->
  gs_inv (state_at f a0 b0 j) /\
  within (a (state_at f a0 b0 j), b (state_at f a0 b0 j)) (a0, b0).
Proof.
  intro H. induction j as [|j [IHi IHw]].
  - split; [apply gs_init_inv, H|]. unfold within. cbn. lra.
  - unfold state_at in *. rewrite iterate_S_out.
    destruct (gs_step_inv IHi) as (Hi & Hs).
    split; [exact Hi|].
    unfold within, strictly_inside in *. cbn [fst snd] in *. lra.
Qed.

End ExactGoldenSection.

Section ExactBisection.
Variables f df : R -> R.
Import Bisection Nesting.
Local Open Scope R_scope.

Lemma bis_step_inside (s : state (T := R)) :
  a s < b s ->
  strictly_inside (a (step df s), b (step df s)) (a s, b s).
Proof.
  intro H. unfold step, strictly_inside, mid.
  destruct (nltb (of_int 0) (df _)); cbn; lra.
Qed.

Lemma bis_states_within (a0 b0 : R) (j : nat) :
  a0 < b0 ->
  within (a (state_at df a0 b0 j), b (state_at df a0 b0 j)) (a0, b0).
Proof.
  intro H. induction j as [|j IH].
  - unfold within. cbn. lra.
  - unfold state_at in *. rewrite iterate_S_out.
    assert (Hab : a (iterate (step df) j (mkState a0 b0))
                  < b (iterate (step df) j (mkState a0 b0)))
      by (unfold within in IH; cbn [fst snd] in IH; lra).
    pose proof (bis_step_inside _ Hab) as Hs.
    unfold within, strictly_inside in *. cbn [fst snd] in *. lra.
Qed.

End ExactBisection.

Section ExactNesting.
Variables f df : R -> R.
Import Nesting.
Local Open Scope R_scope.


End ExactNesting.

(** * Part IV: the claims on concrete inputs *)

Section Binary64Examples.
Local Open Scope float_scope.

(** The literals [1e-12] and [1e-6] of the source are the values the model
    computes for them. *)
Lemma literals_binary64 :
  Newton.stall_threshold (T := float) = 1e-12 /\
  Differentiator.h (T := float) = 1e-6.
Proof. split; vm_compute; reflexivity. Qed.

(** C1 as the specification words it fails on [x * x] over [[-1, 1]]: the
    two interior values are equal, and the bracket kept is [[c, b]], not
    the [[a, d]] that is kept when the first value is the smaller. *)
Lemma tie_keeps_right_not_left :
  let f := fun x : float => x * x in
  let s := GoldenSection.init f (-1) 1 in
  GoldenSection.fc s = GoldenSection.fd s /\
  GoldenSectionSides.bracket (GoldenSection.step f s)
    = GoldenSectionSides.right_side s /\
  GoldenSectionSides.bracket (GoldenSection.step f s)
    <> GoldenSectionSides.left_side s.
Proof.
  intros f s. split; [vm_compute; reflexivity|].
  split; [vm_compute; reflexivity|].
  intro H. apply (f_equal fst) in H.
  apply (@float_lt_neq (GoldenSection.a s) (GoldenSection.c s));
    [vm_compute; reflexivity|].
  symmetry. exact H.
Qed.

(** The witness of C1. *)
Lemma tie_break_keeps_right_side_witness :
  let f := fun x : float => x * x in
  let s := GoldenSection.init f (-1) 1 in
  GoldenSection.fc s = GoldenSection.fd s /\
  GoldenSectionSides.bracket (GoldenSection.step f s)
    = GoldenSectionSides.right_side s.
Proof.
  intros f s.
  assert (E : GoldenSection.fc s = GoldenSection.fd s)
    by (vm_compute; reflexivity).
  split; [exact E|].
  destruct (tie_break_keeps_right_side (T := float) f []) as (Hgs & _).
  destruct (Hgs s) as (_ & _ & Ht). exact (Ht E).
Defined.




(** The witness of C5: a straight line, whose second derivative is zero. *)
Lemma newtonMethod_spec_witness :
  let call :=
    Newton.newtonMethod (fun x : float => x) (fun _ => 1) (fun _ => 0)
                        0 0.000001 60 in
  xOpt (fst call) = 0 /\ snd call = [Newton.msg_stall].
Proof.
  intro call.
  destruct (newtonMethod_spec (fun x : float => x) (fun _ => 1) (fun _ => 0)
              0 0.000001 60) as (_ & _ & H).
  destruct (H 0%nat) as (Hx & _ & _ & Hal).
  - lia.
  - intros j Hj. lia.
  - vm_compute. reflexivity.
  - split; [exact Hx|exact Hal].
Defined.

(** The witness of C6: the bracket [[5, -2]], a derivative positive at both
    ends, and a count of one. *)
Lemma run_precondition_violation_witness :
  GoldenSection.run Catalog.parabola ParserSets.sample_engine None
    5 (-2) 0.001 60 = [alert msg_bracket] /\
  Bisection.run Catalog.parabola Catalog.parabola' ParserSets.sample_engine
    None 3 5 0.000001 60 = [alert Bisection.msg_sign] /\
  Fibonacci.run Catalog.parabola ParserSets.sample_engine None (-2) 5 1
    = [alert Fibonacci.msg_iterations].
Proof.
  split; [|split].
  - destruct (run_precondition_violation (T := float) Catalog.parabola
                Catalog.parabola' ParserSets.sample_engine None
                5 (-2) 0.001 60 20) as (H & _).
    apply H. vm_compute. reflexivity.
  - destruct (run_precondition_violation (T := float) Catalog.parabola
                Catalog.parabola' ParserSets.sample_engine None
                3 5 0.000001 60 20) as (_ & H & _).
    apply H. vm_compute. reflexivity.
  - destruct (run_precondition_violation (T := float) Catalog.parabola
                Catalog.parabola' ParserSets.sample_engine None
                (-2) 5 0.001 60 1) as (_ & _ & H & _).
    apply H. lia.
Defined.



(** Where the nesting of C10 does hold in binary64: the run of the
    specification's test list, the parabola over [[-2, 5]] with the default
    tolerance of each component and 60 iterations. *)
Lemma brackets_nested_binary64_default :
  let nested := fix nested (l : list (float * float)) : bool :=
    match l with
    | p :: ((q :: _) as l') =>
        (fst p <=? fst q) && (snd q <=? snd p)
        && ((fst p <? fst q) || (snd q <? snd p))
        && (fst q <? snd q) && nested l'
    | _ => true
    end in
  nested (map (fun r => (GoldenSection.r_a r, GoldenSection.r_b r))
            (history (GoldenSection.goldenSectionSearch Catalog.parabola
                        (-2) 5 0.001 60))) = true /\
  nested (map (fun r => (Bisection.r_a r, Bisection.r_b r))
            (history (Bisection.bisectionMethod Catalog.parabola
                        Catalog.parabola' (-2) 5 0.000001 60))) = true.
Proof. split; vm_compute; reflexivity. Qed.

(** The runs of the specification's test list, in binary64: the four
    searches on the parabola [(x-2)^2 + 1] end within [1e-3] of [x = 2];
    Newton's method from [x0 = 0] takes two iterations and ends at [2]
    exactly. *)
Lemma parabola_runs_binary64 :
  let near (Rec : Type) (r : Result float Rec) :=
    (PrimFloat.abs (xOpt r - 2) <? 0.001)
    && (PrimFloat.abs (fOpt r - 1) <? 0.001) in
  let gs := GoldenSection.goldenSectionSearch Catalog.parabola
              (-2) 5 0.001 60 in
  let fib := Fibonacci.fibonacciSearch Catalog.parabola (-2) 5 20 in
  let bis := Bisection.bisectionMethod Catalog.parabola Catalog.parabola'
               (-2) 5 0.000001 60 in
  let nw := Newton.newtonMethod Catalog.parabola Catalog.parabola'
              Catalog.parabola'' 0 0.000001 60 in
  near _ gs = true /\ List.length (history gs) = 20%nat /\
  near _ fib = true /\ List.length (history fib) = 19%nat /\
  near _ bis = true /\ List.length (history bis) = 22%nat /\
  xOpt (fst nw) = 2 /\ fOpt (fst nw) = 1 /\
  List.length (history (fst nw)) = 2%nat /\ snd nw = [].
Proof. repeat split; vm_compute; reflexivity. Qed.

End Binary64Examples.

Section ExactExamples.
Local Open Scope R_scope.


End ExactExamples.

(** * Part V: further properties of the code *)

Lemma final_map_passes {A : Type} (g : nat -> A) (m : nat) :
  final (map g (passes (S m))) = Some (g m).
Proof.
  unfold final, passes. rewrite length_map, length_seq. cbn [Nat.pred].
  rewrite nth_error_map, (nth_error_nth' (seq 0 (S m)) 0%nat)
    by (rewrite length_seq; lia).
  rewrite seq_nth by lia. reflexivity.
Qed.

Lemma map_iter_passes {A : Type} (it : A -> nat) (g : nat -> A) (m : nat) :
  (forall j, it (g j) = (j + 1)%nat) ->
  map it (map g (passes m)) = seq 1 m.
Proof.
  intro H. rewrite map_map. unfold passes.
  rewrite <- seq_shift. apply map_ext. intro j. rewrite H. lia.
Qed.

(** ** Golden-section search: what the history holds *)

Section GoldenSectionHistory.
Context {T : Type} {N : Number T}.
Variable f : T -> T.
Local Open Scope num_scope.
Import GoldenSection Cached.

Lemma gs_init_cached (a0 b0 : T) : gs_cached f (init f a0 b0).
Proof. split; reflexivity. Qed.

Lemma gs_step_cached (s : state) : gs_cached f s -> gs_cached f (step f s).
Proof.
  intros [Hc Hd]. unfold step, gs_cached.
  destruct (fc s <? fd s); cbn; split; auto.
Qed.

Lemma gs_states_cached (a0 b0 : T) (j : nat) :
  gs_cached f (state_at f a0 b0 j).
Proof.
  induction j as [|j IH]; [apply gs_init_cached|].
  unfold state_at in *. rewrite iterate_S_out. apply gs_step_cached, IH.
Qed.

(** The values shown in the table are never stale: in every record [fc]
    and [fd] are the objective at the recorded [c] and [d], also where the
    search carried a value over instead of evaluating it again, and
    [midpoint] is the midpoint of the recorded bracket.  The records are
    numbered 1, 2, ... without gaps and there are at most [maxIter] of
    them. *)
Theorem goldenSectionSearch_history_consistent
  (a0 b0 tol : T) (maxIter : nat) :
  let res := goldenSectionSearch f a0 b0 tol maxIter in
  (forall r : record, In r (history res) ->
     r_fc r = f (r_c r) /\ r_fd r = f (r_d r) /\
     r_midpoint r = (r_a r + r_b r) / of_int 2) /\
  map r_iter (history res) = seq 1 (List.length (history res)) /\
  (List.length (history res) <= maxIter)%nat /\
  (List.length (history res) = 0%nat <-> maxIter = 0%nat).
Proof.
  intro res.
  destruct (gs_loop_spec f tol maxIter 0 (init f a0 b0) [])
    as (k & Hk & _ & _ & Heq).
  assert (Hh : history res =
            map (fun j => record_of j (state_at f a0 b0 j))
                (passes (pushed k maxIter))).
  { unfold res, goldenSectionSearch. rewrite Heq. reflexivity. }
  assert (Hlen : List.length (history res) = pushed k maxIter).
  { rewrite Hh. unfold passes. rewrite length_map, length_seq. reflexivity. }
  split; [|split; [|split]].
  - intros r Hr. rewrite Hh in Hr. apply in_map_iff in Hr.
    destruct Hr as (j & <- & _).
    destruct (gs_states_cached a0 b0 j) as [Hc Hd]. cbn. auto.
  - rewrite Hlen, Hh. apply map_iter_passes. reflexivity.
  - rewrite Hlen. unfold pushed. lia.
  - rewrite Hlen. unfold pushed. lia.
Qed.

(** The result can be read off the last row of the table.  When that row
    meets the tolerance test, [xOpt] is its midpoint; otherwise the budget
    ran out, and [xOpt] is the midpoint of the bracket one pass further,
    which no row shows. *)
Theorem goldenSectionSearch_result_from_last_record
  (a0 b0 tol : T) (maxIter : nat) :
  (0 < maxIter)%nat ->
  let res := goldenSectionSearch f a0 b0 tol maxIter in
  exists r : record,
    final (history res) = Some r /\
    xOpt res =
      if nabs (r_b r - r_a r) <? tol then r_midpoint r
      else if r_fc r <? r_fd r then (r_a r + r_d r) / of_int 2
      else (r_c r + r_b r) / of_int 2.
Proof.
  intros Hpos res.
  destruct (gs_loop_spec f tol maxIter 0 (init f a0 b0) [])
    as (k & Hk & Hno & Hend & Heq).
  assert (Hres : history res =
            map (fun j => record_of j (state_at f a0 b0 j))
                (passes (pushed k maxIter)) /\
          xOpt res = (a (state_at f a0 b0 k) + b (state_at f a0 b0 k))
                     / of_int 2).
  { unfold res, goldenSectionSearch. rewrite Heq. split; reflexivity. }
  destruct Hres as [Hh Hx]. rewrite Hh, Hx.
  destruct (Nat.eq_dec k maxIter) as [E|E].
  - destruct maxIter as [|m]; [lia|]. subst k.
    exists (record_of m (state_at f a0 b0 m)).
    replace (pushed (S m) (S m)) with (S m) by (unfold pushed; lia).
    split;
      [exact (final_map_passes
                (fun j => record_of j (state_at f a0 b0 j)) m)|].
    pose proof (Hno m (Nat.lt_succ_diag_r m)) as Hc.
    unfold converged in Hc. cbn [record_of r_a r_b r_c r_d r_fc r_fd].
    fold (state_at f a0 b0 m) in Hc. rewrite Hc.
    unfold state_at at 1 2. rewrite iterate_S_out.
    fold (state_at f a0 b0 m). unfold step.
    destruct (fc (state_at f a0 b0 m) <? fd (state_at f a0 b0 m));
      reflexivity.
  - exists (record_of k (state_at f a0 b0 k)).
    replace (pushed k maxIter) with (S k) by (unfold pushed; lia).
    split;
      [exact (final_map_passes
                (fun j => record_of j (state_at f a0 b0 j)) k)|].
    destruct Hend as [Hend|Hend]; [contradiction|].
    unfold converged in Hend. cbn [record_of r_a r_b r_midpoint].
    fold (state_at f a0 b0 k) in Hend. rewrite Hend. reflexivity.
Qed.

End GoldenSectionHistory.

(** ** Bisection and Newton: what the history holds *)

Section BisectionHistory.
Context {T : Type} {N : Number T}.
Variables f df : T -> T.
Local Open Scope num_scope.
Import Bisection.

(** The rows of the bisection table are numbered 1, 2, ... without gaps,
    at most [maxIter] of them, each with [c] the midpoint of its bracket,
    [fc = f c], [dfc = f' c] and [error = |b - a|].  The result can be read
    off the last row: when it meets a stopping test, [xOpt] and [fOpt] are
    its [c] and [fc]; otherwise the budget ran out and [xOpt] is the
    midpoint of the half kept after that row, which no row shows. *)
Theorem bisectionMethod_history_and_result
  (a0 b0 tol : T) (maxIter : nat) :
  (0 < maxIter)%nat ->
  let res := bisectionMethod f df a0 b0 tol maxIter in
  map r_iter (history res) = seq 1 (List.length (history res)) /\
  (0 < List.length (history res) <= maxIter)%nat /\
  (forall r : record, In r (history res) ->
     r_c r = (r_a r + r_b r) / of_int 2 /\ r_fc r = f (r_c r) /\
     r_dfc r = df (r_c r) /\ r_error r = nabs (r_b r - r_a r)) /\
  exists r : record,
    final (history res) = Some r /\
    if (nabs (r_dfc r) <? tol) || (r_error r <? tol)
    then xOpt res = r_c r /\ fOpt res = r_fc r
    else xOpt res = if of_int 0 <? r_dfc r
                    then (r_a r + r_c r) / of_int 2
                    else (r_c r + r_b r) / of_int 2.
Proof.
  intros Hpos res.
  destruct (bis_loop_spec f df tol maxIter 0 (mkState a0 b0) [])
    as (k & Hk & Hno & Hend & Heq).
  assert (Hres : res =
            mkResult ((a (state_at df a0 b0 k) + b (state_at df a0 b0 k))
                      / of_int 2)
                     (f ((a (state_at df a0 b0 k) + b (state_at df a0 b0 k))
                         / of_int 2))
                     (map (fun j => record_of f df j (state_at df a0 b0 j))
                          (passes (pushed k maxIter)))).
  { unfold res, bisectionMethod. rewrite Heq. reflexivity. }
  rewrite Hres. cbn [history xOpt fOpt].
  assert (Hlen : List.length
                   (map (fun j => record_of f df j (state_at df a0 b0 j))
                        (passes (pushed k maxIter))) = pushed k maxIter).
  { unfold passes. rewrite length_map, length_seq. reflexivity. }
  split; [|split; [|split]].
  - rewrite Hlen. apply map_iter_passes. reflexivity.
  - rewrite Hlen. unfold pushed. lia.
  - intros r Hr. apply in_map_iff in Hr. destruct Hr as (j & <- & _).
    cbn. repeat split; reflexivity.
  - destruct (Nat.eq_dec k maxIter) as [E|E].
    + destruct maxIter as [|m]; [lia|]. subst k.
      exists (record_of f df m (state_at df a0 b0 m)).
      replace (pushed (S m) (S m)) with (S m) by (unfold pushed; lia).
      split;
        [exact (final_map_passes
                  (fun j => record_of f df j (state_at df a0 b0 j)) m)|].
      pose proof (Hno m (Nat.lt_succ_diag_r m)) as Hc.
      unfold stop, mid in Hc. fold (state_at df a0 b0 m) in Hc.
      cbn [record_of r_a r_b r_c r_dfc r_error]. unfold mid. rewrite Hc.
      unfold state_at at 1 2. rewrite iterate_S_out.
      fold (state_at df a0 b0 m). unfold step, mid.
      destruct (of_int 0 <? df _); reflexivity.
    + exists (record_of f df k (state_at df a0 b0 k)).
      replace (pushed k maxIter) with (S k) by (unfold pushed; lia).
      split;
        [exact (final_map_passes
                  (fun j => record_of f df j (state_at df a0 b0 j)) k)|].
      destruct Hend as [Hend|Hend]; [contradiction|].
      unfold stop, mid in Hend. fold (state_at df a0 b0 k) in Hend.
      cbn [record_of r_a r_b r_c r_fc r_dfc r_error]. unfold mid.
      rewrite Hend. split; reflexivity.
Qed.

End BisectionHistory.

Section NewtonHistory.
Context {T : Type} {N : Number T}.
Variables f df d2f : T -> T.
Local Open Scope num_scope.
Import Newton NewtonEnding.

(** The rows of Newton's table are numbered 1, 2, ... without gaps, at
    most [maxIter] of them, and [step] is [dfx / d2fx] in each.  The result
    can be read off the last row: when it meets the convergence test or
    the stall test, [xOpt] and [fOpt] are its [x] and [fx], and the alert
    is shown exactly when only the stall test is met; otherwise the budget
    ran out and [xOpt] is [x - step], one update beyond the last row. *)
Theorem newtonMethod_history_and_result (x0 tol : T) (maxIter : nat) :
  (0 < maxIter)%nat ->
  let res := fst (newtonMethod f df d2f x0 tol maxIter) in
  let alerts := snd (newtonMethod f df d2f x0 tol maxIter) in
  map r_iter (history res) = seq 1 (List.length (history res)) /\
  (0 < List.length (history res) <= maxIter)%nat /\
  (forall r : record, In r (history res) ->
     r_fx r = f (r_x r) /\ r_dfx r = df (r_x r) /\ r_d2fx r = d2f (r_x r) /\
     r_step r = r_dfx r / r_d2fx r) /\
  exists r : record,
    final (history res) = Some r /\
    if nabs (r_dfx r) <? tol
    then xOpt res = r_x r /\ fOpt res = r_fx r /\ alerts = []
    else if nabs (r_d2fx r) <? stall_threshold
    then xOpt res = r_x r /\ fOpt res = r_fx r /\ alerts = [msg_stall]
    else xOpt res = r_x r - r_step r /\ alerts = [].
Proof.
  intros Hpos res alerts.
  destruct (nw_loop_spec f df d2f tol maxIter 0 x0 [])
    as (k & al & Hk & Hno & Hend & Heq).
  assert (Hres : res =
            mkResult (point_at df d2f x0 k) (f (point_at df d2f x0 k))
              (map (fun j => record_of f df d2f j (point_at df d2f x0 j))
                   (passes (pushed k maxIter))) /\ alerts = al).
  { unfold res, alerts, newtonMethod. rewrite Heq. split; reflexivity. }
  destruct Hres as [Hres Hal]. rewrite Hres, Hal. cbn [history xOpt fOpt].
  assert (Hlen : List.length
                   (map (fun j => record_of f df d2f j (point_at df d2f x0 j))
                        (passes (pushed k maxIter))) = pushed k maxIter).
  { unfold passes. rewrite length_map, length_seq. reflexivity. }
  split; [|split; [|split]].
  - rewrite Hlen. apply map_iter_passes. reflexivity.
  - rewrite Hlen. unfold pushed. lia.
  - intros r Hr. apply in_map_iff in Hr. destruct Hr as (j & <- & _).
    cbn. repeat split; reflexivity.
  - unfold nw_ending, converged, stalled in Hend, Hno.
    fold (point_at df d2f x0 k) in Hend.
    destruct Hend as [[E ->]|[(Hlt & Hc & ->)|(Hlt & Hc & Hs & ->)]].
    + destruct maxIter as [|m]; [lia|]. subst k.
      exists (record_of f df d2f m (point_at df d2f x0 m)).
      replace (pushed (S m) (S m)) with (S m) by (unfold pushed; lia).
      split;
        [exact (final_map_passes
                  (fun j => record_of f df d2f j (point_at df d2f x0 j)) m)|].
      destruct (Hno m (Nat.lt_succ_diag_r m)) as [Hc Hs].
      fold (point_at df d2f x0 m) in Hc, Hs.
      cbn [record_of r_x r_fx r_dfx r_d2fx r_step]. rewrite Hc, Hs.
      split; [|reflexivity].
      unfold point_at. rewrite iterate_S_out. reflexivity.
    + exists (record_of f df d2f k (point_at df d2f x0 k)).
      replace (pushed k maxIter) with (S k) by (unfold pushed; lia).
      split;
        [exact (final_map_passes
                  (fun j => record_of f df d2f j (point_at df d2f x0 j)) k)|].
      cbn [record_of r_x r_fx r_dfx r_d2fx r_step]. rewrite Hc.
      repeat split; reflexivity.
    + exists (record_of f df d2f k (point_at df d2f x0 k)).
      replace (pushed k maxIter) with (S k) by (unfold pushed; lia).
      split;
        [exact (final_map_passes
                  (fun j => record_of f df d2f j (point_at df d2f x0 j)) k)|].
      cbn [record_of r_x r_fx r_dfx r_d2fx r_step]. rewrite Hc, Hs.
      repeat split; reflexivity.
Qed.

End NewtonHistory.

(** ** Fibonacci search: what the history holds *)

Section FibonacciHistory.
Context {T : Type} {N : Number T} {I : IEEE T}.
Variable f : T -> T.
Local Open Scope num_scope.
Import Fibonacci FibonacciWords Cached.






End FibonacciHistory.

(** ** The [run] handlers: when a result is set *)

Section RunOutcome.
Context {T : Type} {N : Number T} {I : IEEE T}.
Variables f df d2f : T -> T.
Variable newFunction : Parser.jsstring -> string + Parser.callable (T := T).
Local Open Scope num_scope.




End RunOutcome.

(** ** The formula filter: white space and the rewriting chain *)

Section ParserTrim.
Import Parser.

Lemma trimStart_app_blank (w t : jsstring) :
  forallb isWhiteSpace w = true -> trimStart (w ++ t) = trimStart t.
Proof.
  induction w as [|u w IH]; intro H; [reflexivity|].
  cbn in H. apply andb_true_iff in H. destruct H as [Hu Hw].
  cbn. rewrite Hu. apply IH, Hw.
Qed.

Lemma trimStart_blank (w : jsstring) :
  forallb isWhiteSpace w = true -> trimStart w = [].
Proof.
  intro H. rewrite <- (app_nil_r w). rewrite trimStart_app_blank by exact H.
  reflexivity.
Qed.

Lemma trimStart_app (s w : jsstring) :
  trimStart (s ++ w) =
    match trimStart s with [] => trimStart w | _ => trimStart s ++ w end.
Proof.
  induction s as [|u s IH]; cbn.
  - destruct (trimStart w); reflexivity.
  - destruct (isWhiteSpace u); [exact IH|reflexivity].
Qed.

Lemma trimStart_head (s : jsstring) :
  match trimStart s with
  | [] => True
  | u :: _ => isWhiteSpace u = false
  end.
Proof.
  induction s as [|u s IH]; cbn; [exact I|].
  destruct (isWhiteSpace u) eqn:E; [exact IH|exact E].
Qed.

Lemma trimStart_idem (s : jsstring) : trimStart (trimStart s) = trimStart s.
Proof.
  pose proof (trimStart_head s) as H.
  destruct (trimStart s) as [|u t]; [reflexivity|]. cbn. rewrite H.
  reflexivity.
Qed.

(** Blank code units around a formula do not reach the filter. *)
Lemma trim_surrounded (w1 s w2 : jsstring) :
  forallb isWhiteSpace w1 = true -> forallb isWhiteSpace w2 = true ->
  trim (w1 ++ s ++ w2) = trim s.
Proof.
  intros H1 H2. unfold trim. rewrite trimStart_app_blank by exact H1.
  rewrite trimStart_app. destruct (trimStart s) as [|u t] eqn:E.
  - rewrite (trimStart_blank w2 H2). reflexivity.
  - rewrite rev_app_distr. rewrite trimStart_app_blank; [reflexivity|].
    rewrite forallb_forall in *. intros x Hx. apply H2.
    apply in_rev. exact Hx.
Qed.

Lemma trim_blank (w : jsstring) :
  forallb isWhiteSpace w = true -> trim w = [].
Proof.
  intro H. unfold trim. rewrite (trimStart_blank w H). reflexivity.
Qed.

Lemma trim_idem (s : jsstring) : trim (trim s) = trim s.
Proof.
  unfold trim.
  set (t := trimStart (rev (trimStart s))).
  assert (Ht : trimStart t = t) by apply trimStart_idem.
  (* [rev t] starts with what [trimStart s] starts with, unless it is empty *)
  assert (Hs : trimStart (rev t) = rev t).
  { pose proof (trimStart_head s) as Hh.
    destruct (trimStart s) as [|u s'] eqn:E.
    - subst t. reflexivity.
    - subst t. cbn [rev]. rewrite trimStart_app.
      destruct (trimStart (rev s')) as [|v r] eqn:Er.
      + cbn. rewrite Hh. cbn. rewrite Hh. reflexivity.
      + rewrite rev_app_distr. cbn. rewrite Hh. reflexivity. }
  rewrite Hs, rev_involutive, Ht. reflexivity.
Qed.

End ParserTrim.

Section ParserChain.
Import Parser.

(** Every code unit of a rewritten string comes from the string or from
    the replacement. *)
Lemma replace_from_In (pat rep : jsstring) (x : N) :
  forall (s : jsstring) (skip : nat),
  In x (replace_from pat rep s skip) -> In x s \/ In x rep.
Proof.
  induction s as [|u s IH]; intros skip H; [destruct H|].
  cbn [replace_from] in H. destruct skip as [|k].
  - destruct (startsWith pat (u :: s)).
    + apply in_app_or in H. destruct H as [H|H]; [right; exact H|].
      destruct (IH _ H); [left; right|right]; assumption.
    + destruct H as [->|H]; [left; left; reflexivity|].
      destruct (IH _ H); [left; right|right]; assumption.
  - destruct (IH _ H); [left; right|right]; assumption.
Qed.

(** A one-unit pattern does not survive its replacement. *)
Lemma replace_from_unit (c : N) (rep : jsstring) :
  ~ In c rep ->
  forall s : jsstring, ~ In c (replace_from [c] rep s 0).
Proof.
  intros Hrep s. induction s as [|u s IH]; [intros []|].
  cbn [replace_from startsWith List.length Nat.sub].
  destruct (N.eqb_spec c u) as [E|E]; cbn [andb].
  - intro H. apply in_app_or in H. destruct H; auto.
  - intros [H|H]; [congruence|auto].
Qed.

(** A pattern that holds a code unit the string lacks matches nowhere. *)
Lemma startsWith_In (pat : jsstring) :
  forall (s : jsstring) (c : N),
  startsWith pat s = true -> In c pat -> In c s.
Proof.
  induction pat as [|p pat IH]; intros s c H Hc; [destruct Hc|].
  destruct s as [|u s]; [discriminate|]. cbn in H.
  apply andb_true_iff in H. destruct H as [Hp Hs].
  apply N.eqb_eq in Hp. subst u.
  destruct Hc as [->|Hc]; [left; reflexivity|right; eauto].
Qed.

Lemma replaceAll_absent (pat rep s : jsstring) (c : N) :
  In c pat -> ~ In c s -> replaceAll pat rep s = s.
Proof.
  intros Hc. unfold replaceAll. induction s as [|u s IH]; intro Hs;
    [reflexivity|].
  cbn [replace_from].
  destruct (startsWith pat (u :: s)) eqn:E.
  - exfalso. apply Hs. exact (startsWith_In pat _ c E Hc).
  - f_equal. apply IH. intro H. apply Hs. right. exact H.
Qed.

End ParserChain.

Section ParserProperties.
Context {T : Type} {NT : Number T}.
Variable newFunction : Parser.jsstring -> string + Parser.callable (T := T).
Import Parser.

(** White space around a formula never changes what
    [parseCustomFunction] does with it, and a formula of white space only,
    the empty one included, is refused with the message about characters,
    without reaching the engine. *)
Theorem parseCustomFunction_ignores_blanks (w1 s w2 : jsstring) :
  forallb isWhiteSpace w1 = true ->
  forallb isWhiteSpace w2 = true ->
  parseCustomFunction newFunction (w1 ++ s ++ w2)
    = parseCustomFunction newFunction s /\
  parseCustomFunction newFunction (trim s)
    = parseCustomFunction newFunction s /\
  parseCustomFunction newFunction w1
    = inl (msg_prefix ++ msg_chars)%string.
Proof.
  intros H1 H2. unfold parseCustomFunction.
  rewrite (trim_surrounded w1 s w2 H1 H2), trim_idem, (trim_blank w1 H1).
  repeat split; reflexivity.
Qed.

(** No caret reaches the JavaScript engine, where it would mean exclusive
    or: whatever the formula, the rewritten text holds no [^]. *)
Theorem processedFunc_no_caret (s : jsstring) :
  ~ In 94%N (processedFunc s) /\
  ~ In 94%N (js "return " ++ processedFunc (trim s)).
Proof.
  assert (H : forall t : jsstring, ~ In 94%N (processedFunc t)).
  { intro t. unfold processedFunc, replacements, replaceAll.
    cbn [fold_left fst snd].
    do 10 (let H := fresh "H" in
            intro H; apply replace_from_In in H;
            destruct H as [H|H];
            [revert H|vm_compute in H; intuition discriminate]).
    apply replace_from_unit.
    vm_compute. intuition discriminate. }
  split; [apply H|].
  intro Hin. apply in_app_or in Hin. destruct Hin as [Hin|Hin].
  - vm_compute in Hin. intuition discriminate.
  - exact (H _ Hin).
Qed.

(** A formula with neither a caret nor an opening parenthesis is handed
    to the engine as it was typed (trimmed): none of the eleven rewriting
    rules touches it. *)
Theorem processedFunc_plain (s : jsstring) :
  ~ In 94%N s -> ~ In 40%N s -> processedFunc s = s.
Proof.
  intros Hc Hp. unfold processedFunc, replacements. cbn [fold_left fst snd].
  rewrite (@replaceAll_absent (js "^") (js "**") s 94%N)
    by (exact Hc || (vm_compute; auto)).
  repeat (rewrite (@replaceAll_absent _ _ s 40%N)
            by (exact Hp || (vm_compute; auto 10))).
  reflexivity.
Qed.

End ParserProperties.

(** ** The samplers *)

Section SamplerProperties.
Context {T : Type} {N : Number T} {I : IEEE T}.
Variable f : T -> T.
Import SamplerWords.
Local Open Scope num_scope.

Lemma flat_map_length_le {A B : Type} (g : A -> list B) (l : list A) :
  (forall i, (List.length (g i) <= 1)%nat) ->
  (List.length (flat_map g l) <= List.length l)%nat.
Proof.
  intro H. induction l as [|i l IH]; [apply le_n|].
  cbn. rewrite length_app. specialize (H i). lia.
Qed.

Lemma In_indices (i : Z) :
  In i indices <-> (0 <= i <= Sampler.samples)%Z.
Proof.
  unfold indices. rewrite in_map_iff. split.
  - intros (t & <- & Ht). apply in_seq in Ht. unfold Sampler.samples in *. lia.
  - intro H. exists (Z.to_nat i). split; [lia|].
    apply in_seq. unfold Sampler.samples in *. lia.
Qed.

(** The sampler of the bracket components never returns more than 301
    points, returns none when a bound is NaN or [a >= b], and every point
    it returns is the rounding of a grid point [(x, f x)], with
    [x = a + (i/300)(b - a)] for some [0 <= i <= 300], of which neither
    coordinate is NaN. *)
Theorem sampleData_points (numA numB : T) :
  (List.length (Sampler.sampleData f numA numB) <= 301)%nat /\
  (isNaN numA = true \/ isNaN numB = true \/ nleb numB numA = true ->
   Sampler.sampleData f numA numB = []) /\
  (forall p : Sampler.point,
     In p (Sampler.sampleData f numA numB) ->
     exists i : Z,
       (0 <= i <= 300)%Z /\
       isNaN (Sampler.abscissa numA numB i) = false /\
       isNaN (f (Sampler.abscissa numA numB i)) = false /\
       Sampler.x p = toFixed6 (Sampler.abscissa numA numB i) /\
       Sampler.y p = toFixed6 (f (Sampler.abscissa numA numB i))).
Proof.
  destruct (isNaN numA || isNaN numB || nleb numB numA) eqn:G.
  - assert (E : Sampler.sampleData f numA numB = [])
      by (unfold Sampler.sampleData; rewrite G; reflexivity).
    rewrite E. repeat split; [cbn; lia|intros p []].
  - rewrite (sampleData_grid f numA numB G). split; [|split].
    + etransitivity.
      * apply flat_map_length_le. intro i. unfold sample_at.
        destruct (Sampler.valid _ _); cbn; lia.
      * unfold indices. rewrite length_map, length_seq. cbn. lia.
    + intros [H|[H|H]]; rewrite H in G; rewrite ?orb_true_r in G;
        discriminate.
    + intros p Hp. apply in_flat_map in Hp. destruct Hp as (i & Hi & Hp).
      apply In_indices in Hi. unfold sample_at in Hp.
      destruct (Sampler.valid _ _) eqn:V; [|destruct Hp].
      destruct Hp as [<-|[]]. unfold Sampler.valid in V.
      apply andb_true_iff in V. destruct V as [Vx Vy].
      apply negb_true_iff in Vx, Vy.
      exists i. unfold Sampler.samples in Hi. repeat split; auto; lia.
Qed.

Lemma newton_sampler_loop_spec (x0 : T) (fuel : nat) :
  forall (i : Z) (xs : list Sampler.point),
  NewtonSampler.loop f x0 fuel i xs =
    xs ++ map (fun t =>
                 Sampler.mkPoint
                   (toFixed6 (NewtonSampler.abscissa x0 (i + Z.of_nat t)))
                   (f (NewtonSampler.abscissa x0 (i + Z.of_nat t))))
              (seq 0 fuel).
Proof.
  induction fuel as [|fuel IH]; intros i xs.
  - cbn. rewrite app_nil_r. reflexivity.
  - cbn [NewtonSampler.loop]. rewrite IH. cbn [seq map].
    rewrite <- seq_shift, map_map, Z.add_0_r, <- app_assoc. cbn [app].
    do 2 f_equal. apply map_ext. intro t.
    replace (i + 1 + Z.of_nat t)%Z with (i + Z.of_nat (S t))%Z by lia.
    reflexivity.
Qed.

(** The sampler of the Newton component has no guard and no filter: for
    every objective and every [x0], NaN included, it returns exactly 301
    points, the one of index [i] at [x0 - 3 + (i/300) * 6] rounded to six
    decimals, with the value of the objective there as it is, neither
    rounded nor tested. *)
Theorem newton_sampleData_points (x0 : T) :
  NewtonSampler.sampleData f x0 =
    map (fun i => Sampler.mkPoint (toFixed6 (NewtonSampler.abscissa x0 i))
                                  (f (NewtonSampler.abscissa x0 i)))
        indices /\
  List.length (NewtonSampler.sampleData f x0) = 301%nat /\
  (forall i : Z,
     NewtonSampler.abscissa x0 i =
       x0 - of_int 6 / of_int 2 + (of_int i / of_int 300) * of_int 6).
Proof.
  assert (E : NewtonSampler.sampleData f x0 =
            map (fun i => Sampler.mkPoint
                            (toFixed6 (NewtonSampler.abscissa x0 i))
                            (f (NewtonSampler.abscissa x0 i)))
                indices).
  { unfold NewtonSampler.sampleData. rewrite newton_sampler_loop_spec.
    cbn [app]. unfold indices. rewrite map_map. reflexivity. }
  split; [exact E|]. split; [|reflexivity].
  rewrite E. unfold indices. rewrite !length_map, length_seq. reflexivity.
Qed.

End SamplerProperties.

(** ** Exact arithmetic: how fast the brackets shrink and what they keep *)

Lemma pow_le_anti (r : R) (m k : nat) :
  (0 <= r <= 1)%R -> (m <= k)%nat -> (r ^ k <= r ^ m)%R.
Proof.
  intros Hr Hmk. induction Hmk as [|k Hmk IH]; [apply Rle_refl|].
  cbn [pow]. assert (0 <= r ^ k)%R by (apply pow_le; lra). nra.
Qed.

Section ExactGoldenSectionRate.
Variable f : R -> R.
Import GoldenSection Nesting Shapes Cached.
Local Open Scope R_scope.

Lemma gs_step_width (s : state) :
  gs_inv s -> b (step f s) - a (step f s) = (b s - a s) * / phi.
Proof.
  intros (Hab & Hc & Hd). unfold step.
  destruct (nltb (fc s) (fd s)); cbn -[phi]; lra.
Qed.

Lemma gs_states_width (a0 b0 : R) (j : nat) :
  a0 < b0 ->
  b (state_at f a0 b0 j) - a (state_at f a0 b0 j) = (b0 - a0) * (/ phi) ^ j.
Proof.
  intro H. induction j as [|j IH].
  - cbn. lra.
  - destruct (gs_states_inv f j H) as (Hi & _).
    unfold state_at in *. rewrite iterate_S_out, (gs_step_width Hi), IH.
    cbn [pow]. ring.
Qed.

Lemma gs_step_encloses (a0 b0 xm : R) (s : state) :
  unimodal f a0 b0 xm -> gs_inv s -> gs_cached f s ->
  a0 <= a s -> b s <= b0 ->
  a s <= xm <= b s ->
  a (step f s) <= xm <= b (step f s).
Proof.
  intros (_ & Hdec & Hinc) (Hab & Hc & Hd) (Hfc & Hfd) Ha Hb Hx.
  destruct inv_phi_facts as ((Hr1 & Hr2) & _).
  set (r := / phi) in *.
  assert (Hcd : c s < d s) by nra.
  assert (Hac : a s < c s) by nra.
  assert (Hdb : d s < b s) by nra.
  unfold step.
  change (nltb (fc s) (fd s))
    with (if Rlt_dec (fc s) (fd s) then true else false).
  destruct (Rlt_dec (fc s) (fd s)) as [L|L]; cbn [a b].
  - split; [lra|].
    destruct (Rle_dec xm (d s)) as [Hle|Hgt]; [exact Hle|exfalso].
    assert (f (d s) < f (c s)) by (apply Hdec; lra). lra.
  - split; [|lra].
    destruct (Rle_dec (c s) xm) as [Hle|Hgt]; [exact Hle|exfalso].
    assert (f (c s) < f (d s)) by (apply Hinc; lra). lra.
Qed.

Lemma gs_states_enclose (a0 b0 xm : R) (j : nat) :
  a0 < b0 -> unimodal f a0 b0 xm ->
  a (state_at f a0 b0 j) <= xm <= b (state_at f a0 b0 j).
Proof.
  intros H U. induction j as [|j IH].
  - destruct U as (Hx & _). exact Hx.
  - destruct (gs_states_inv f j H) as (Hi & Hw).
    pose proof (gs_states_cached f a0 b0 j) as Hc.
    unfold within in Hw. cbn [fst snd] in Hw.
    unfold state_at in *. rewrite iterate_S_out.
    apply (gs_step_encloses U Hi Hc); lra.
Qed.

(** In exact arithmetic golden-section search on a function with a single
    valley in [[a, b]] never loses the minimiser: it lies in every
    recorded bracket.  The bracket of row [j + 1] has width
    [(b - a) / phi^j], and [xOpt] is within [(b - a) / (2 phi^(m-1))] of
    the minimiser after [m] rows.  If the budget lets the width get below
    [tol], at pass [j] say, the search stops by then and [xOpt] is within
    [tol / 2] of the minimiser. *)
Theorem goldenSectionSearch_finds_minimiser
  (a0 b0 tol xm : R) (maxIter : nat) :
  a0 < b0 -> unimodal f a0 b0 xm ->
  let res := goldenSectionSearch f a0 b0 tol maxIter in
  let m := List.length (history res) in
  (forall (j : nat) (r : record),
     nth_error (history res) j = Some r ->
     r_a r <= xm <= r_b r /\ r_b r - r_a r = (b0 - a0) * (/ phi) ^ j) /\
  Rabs (xOpt res - xm) <= (b0 - a0) * (/ phi) ^ (Nat.pred m) / 2 /\
  (forall j : nat,
     (j < maxIter)%nat -> (b0 - a0) * (/ phi) ^ j < tol ->
     (m <= S j)%nat /\ Rabs (xOpt res - xm) < tol / 2).
Proof.
  intros H U res m.
  destruct (gs_loop_spec f tol maxIter 0 (init f a0 b0) [])
    as (k & Hk & Hno & Hend & Heq).
  assert (Hres : history res =
            map (fun j => record_of j (state_at f a0 b0 j))
                (passes (pushed k maxIter)) /\
          xOpt res = (a (state_at f a0 b0 k) + b (state_at f a0 b0 k)) / 2).
  { unfold res, goldenSectionSearch. rewrite Heq. split; reflexivity. }
  destruct Hres as [Hh Hx].
  assert (Hm : m = pushed k maxIter).
  { unfold m. rewrite Hh. unfold passes.
    rewrite length_map, length_seq. reflexivity. }
  destruct inv_phi_facts as ((Hr1 & Hr2) & _).
  pose proof (gs_states_enclose k H U) as He.
  pose proof (gs_states_width k H) as Hw.
  assert (Hmid : Rabs (xOpt res - xm) <= (b0 - a0) * (/ phi) ^ k / 2).
  { rewrite Hx. apply Rabs_le. lra. }
  split; [|split].
  - intros j r Hr. rewrite Hh in Hr. apply nth_error_map_passes in Hr.
    destruct Hr as (_ & ->). cbn [record_of r_a r_b].
    split; [apply gs_states_enclose; assumption|].
    apply gs_states_width, H.
  - eapply Rle_trans; [exact Hmid|].
    assert (Hp : (/ phi) ^ k <= (/ phi) ^ Nat.pred m).
    { apply pow_le_anti; [lra|]. rewrite Hm. unfold pushed. lia. }
    nra.
  - intros j Hj Hsmall.
    assert (Hcj : converged tol (state_at f a0 b0 j) = true).
    { unfold converged.
      change (nltb ?x ?y) with (if Rlt_dec x y then true else false).
      change (nabs ?x) with (Rabs x). change (nsub ?x ?y) with (x - y).
      rewrite (gs_states_width j H).
      assert (0 <= (/ phi) ^ j) by (apply pow_le; lra).
      rewrite Rabs_pos_eq by nra.
      destruct (Rlt_dec _ tol); [reflexivity|contradiction]. }
    assert (Hkj : (k <= j)%nat).
    { destruct (Nat.le_gt_cases k j) as [L|G]; [exact L|].
      pose proof (Hno j G) as C. fold (state_at f a0 b0 j) in C.
      congruence. }
    split; [rewrite Hm; unfold pushed; lia|].
    destruct Hend as [E|Hend]; [lia|].
    fold (state_at f a0 b0 k) in Hend. unfold converged in Hend.
    change (nltb ?x ?y) with (if Rlt_dec x y then true else false) in Hend.
    change (nabs ?x) with (Rabs x) in Hend.
    change (nsub ?x ?y) with (x - y) in Hend.
    destruct (Rlt_dec _ tol) as [Lt|]; [|discriminate].
    rewrite Hw in Lt.
    assert (0 <= (/ phi) ^ k) by (apply pow_le; lra).
    rewrite Rabs_pos_eq in Lt by nra. lra.
Qed.

End ExactGoldenSectionRate.

Section ExactBisectionRate.
Variables f df : R -> R.
Import Bisection Nesting Shapes.
Local Open Scope R_scope.

Lemma bis_step_width (s : state (T := R)) :
  b (step df s) - a (step df s) = (b s - a s) / 2.
Proof.
  unfold step, mid. destruct (nltb (of_int 0) (df _)); cbn; lra.
Qed.

Lemma bis_states_width (a0 b0 : R) (j : nat) :
  b (state_at df a0 b0 j) - a (state_at df a0 b0 j) = (b0 - a0) * (/ 2) ^ j.
Proof.
  induction j as [|j IH].
  - cbn. lra.
  - unfold state_at in *. rewrite iterate_S_out, bis_step_width, IH.
    cbn [pow]. lra.
Qed.

Lemma bis_step_encloses (a0 b0 xm : R) (s : state) :
  crosses_up df a0 b0 xm ->
  a0 <= a s -> a s < b s -> b s <= b0 ->
  a s <= xm <= b s ->
  a (step df s) <= xm <= b (step df s).
Proof.
  intros (_ & Hneg & Hpos) Ha Hab Hb Hx. unfold step, mid.
  change (nltb (of_int 0) ?y) with (if Rlt_dec 0 y then true else false).
  change (ndiv (nadd (a s) (b s)) (of_int 2)) with ((a s + b s) / 2).
  destruct (Rlt_dec 0 (df ((a s + b s) / 2))) as [L|L]; cbn [a b].
  - split; [lra|].
    destruct (Rle_dec xm ((a s + b s) / 2)) as [Hle|Hgt];
      [exact Hle|exfalso].
    assert (df ((a s + b s) / 2) < 0) by (apply Hneg; lra). lra.
  - split; [|lra].
    destruct (Rle_dec ((a s + b s) / 2) xm) as [Hle|Hgt];
      [exact Hle|exfalso].
    assert (0 < df ((a s + b s) / 2)) by (apply Hpos; lra). lra.
Qed.

Lemma bis_states_enclose (a0 b0 xm : R) (j : nat) :
  a0 < b0 -> crosses_up df a0 b0 xm ->
  a (state_at df a0 b0 j) <= xm <= b (state_at df a0 b0 j).
Proof.
  intros H U. induction j as [|j IH].
  - destruct U as (Hx & _). exact Hx.
  - pose proof (bis_states_within df j H) as Hw.
    unfold within in Hw. cbn [fst snd] in Hw.
    unfold state_at in *. rewrite iterate_S_out.
    apply (@bis_step_encloses a0 b0 xm _ U); lra.
Qed.

(** In exact arithmetic bisection halves the bracket in every pass: the
    [error] of row [j + 1] is [(b - a) / 2^j].  When the derivative is
    negative left of a point and positive right of it, that point lies in
    every recorded bracket, and after [m] rows [xOpt] is within
    [(b - a) / 2^m] of it. *)
Theorem bisectionMethod_finds_stationary_point
  (a0 b0 tol xm : R) (maxIter : nat) :
  a0 < b0 -> crosses_up df a0 b0 xm ->
  let res := bisectionMethod f df a0 b0 tol maxIter in
  let m := List.length (history res) in
  (forall (j : nat) (r : record),
     nth_error (history res) j = Some r ->
     r_a r <= xm <= r_b r /\ r_error r = (b0 - a0) * (/ 2) ^ j) /\
  Rabs (xOpt res - xm) <= (b0 - a0) * (/ 2) ^ m.
Proof.
  intros H U res m.
  destruct (bis_loop_spec f df tol maxIter 0 (mkState a0 b0) [])
    as (k & Hk & Hno & Hend & Heq).
  assert (Hres : history res =
            map (fun j => record_of f df j (state_at df a0 b0 j))
                (passes (pushed k maxIter)) /\
          xOpt res = (a (state_at df a0 b0 k) + b (state_at df a0 b0 k)) / 2).
  { unfold res, bisectionMethod. rewrite Heq. split; reflexivity. }
  destruct Hres as [Hh Hx].
  assert (Hm : m = pushed k maxIter).
  { unfold m. rewrite Hh. unfold passes.
    rewrite length_map, length_seq. reflexivity. }
  split.
  - intros j r Hr. rewrite Hh in Hr. apply nth_error_map_passes in Hr.
    destruct Hr as (_ & ->). cbn [record_of r_a r_b r_error].
    split; [apply bis_states_enclose; assumption|].
    change (nabs ?x) with (Rabs x). change (nsub ?x ?y) with (x - y).
    rewrite bis_states_width.
    assert (0 <= (/ 2) ^ j) by (apply pow_le; lra).
    apply Rabs_pos_eq. nra.
  - pose proof (bis_states_enclose k H U) as He.
    pose proof (bis_states_width a0 b0 k) as Hw.
    assert (Hmid : Rabs (xOpt res - xm) <= (b0 - a0) * (/ 2) ^ S k).
    { rewrite Hx. cbn [pow]. apply Rabs_le. lra. }
    eapply Rle_trans; [exact Hmid|].
    assert (Hp : (/ 2) ^ S k <= (/ 2) ^ m).
    { apply pow_le_anti; [lra|]. rewrite Hm. unfold pushed. lia. }
    nra.
Qed.

End ExactBisectionRate.

(** ** Exact arithmetic: quadratics *)

Section ExactQuadratic.
Variables al be ga : R.
Import Shapes.
Local Open Scope R_scope.

Lemma h_exact : Differentiator.h (T := R) = / 1000000.
Proof.
  unfold Differentiator.h. cbn.
  change (10 ^ 6)%Z with 1000000%Z. lra.
Qed.

(** In exact arithmetic the central differences of the component are
    exact on a quadratic, at every point: the first one is [2 al x + be]
    and the second one [2 al]. *)
Theorem central_differences_exact_on_quadratics (x : R) :
  Differentiator.firstDerivative (quadratic al be ga) x
    = quadratic' al be x /\
  Differentiator.secondDerivative (quadratic al be ga) x
    = quadratic'' al x.
Proof.
  unfold Differentiator.firstDerivative, Differentiator.secondDerivative.
  rewrite h_exact. unfold quadratic, quadratic', quadratic''. cbn.
  split; field.
Qed.

Lemma stall_threshold_exact :
  Newton.stall_threshold (T := R) = / 1000000000000.
Proof.
  unfold Newton.stall_threshold. cbn.
  change (10 ^ 12)%Z with 1000000000000%Z. lra.
Qed.

(** In exact arithmetic Newton's method solves a quadratic in one update.
    With a curvature that does not trip the stall test, a positive
    tolerance and a budget of at least two, either the start already
    meets the convergence test and is returned after one row, or the
    search returns the stationary point [-be / (2 al)] exactly, after two
    rows; no alert is shown. *)
Theorem newtonMethod_exact_on_quadratics (x0 tol : R) (maxIter : nat) :
  / 1000000000000 <= Rabs (2 * al) -> 0 < tol -> (2 <= maxIter)%nat ->
  let call := Newton.newtonMethod (quadratic al be ga) (quadratic' al be)
                (quadratic'' al) x0 tol maxIter in
  snd call = [] /\
  ((Rabs (2 * al * x0 + be) < tol ->
    xOpt (fst call) = x0 /\ List.length (history (fst call)) = 1%nat) /\
   (~ Rabs (2 * al * x0 + be) < tol ->
    xOpt (fst call) = - be / (2 * al) /\
    List.length (history (fst call)) = 2%nat)).
Proof.
  intros Hal Htol Hmax call.
  assert (Hne : al <> 0).
  { intro E. subst al. rewrite Rmult_0_r, Rabs_R0 in Hal. lra. }
  assert (Hstall : forall x, Newton.stalled (quadratic'' al) x = false).
  { intro x. unfold Newton.stalled. rewrite stall_threshold_exact.
    change (nltb ?u ?v) with (if Rlt_dec u v then true else false).
    change (nabs ?u) with (Rabs u). unfold quadratic''.
    destruct (Rlt_dec (Rabs (2 * al)) (/ 1000000000000)); [lra|reflexivity]. }
  assert (Hconv : forall x,
            Newton.converged (quadratic' al be) tol x =
            if Rlt_dec (Rabs (2 * al * x + be)) tol then true else false)
    by reflexivity.
  assert (Hstep : Newton.step (quadratic' al be) (quadratic'' al) x0
                  = - be / (2 * al)).
  { unfold Newton.step, quadratic', quadratic''. cbn. field. exact Hne. }
  assert (Hz : 2 * al * (- be / (2 * al)) + be = 0) by (field; exact Hne).
  destruct maxIter as [|[|n]]; [lia|lia|].
  unfold call, Newton.newtonMethod. cbn [Newton.loop].
  rewrite !Hstall, Hstep, !Hconv, Hz, Rabs_R0.
  destruct (Rlt_dec 0 tol) as [_|N0]; [|contradiction].
  destruct (Rlt_dec (Rabs (2 * al * x0 + be)) tol) as [C|C]; cbn.
  - split; [reflexivity|]. split.
    + intros _. split; reflexivity.
    + intro Hn. contradiction.
  - split; [reflexivity|]. split.
    + intro Hc. contradiction.
    + intros _. split; reflexivity.
Qed.

End ExactQuadratic.

Section ExactTables.
Import Tables.
Local Open Scope R_scope.

Lemma derivable_pt_lim_value (g : R -> R) (x l l' : R) :
  derivable_pt_lim g x l -> l = l' -> derivable_pt_lim g x l'.
Proof. intros H <-. exact H. Qed.

Lemma derivable_pt_lim_shift (q x : R) :
  derivable_pt_lim (fun t => t - q) x 1.
Proof.
  apply derivable_pt_lim_value with (l := 1 - 0); [|ring].
  apply (derivable_pt_lim_minus id (fct_cte q)).
  - apply derivable_pt_lim_id.
  - apply derivable_pt_lim_const.
Qed.

Lemma derivable_pt_lim_affine (m q x : R) :
  derivable_pt_lim (fun t => m * (t - q)) x m.
Proof.
  apply derivable_pt_lim_value with (l := m * 1); [|ring].
  apply (derivable_pt_lim_scal (fun t => t - q) m x 1).
  apply derivable_pt_lim_shift.
Qed.

Lemma derivable_pt_lim_linear (m x : R) :
  derivable_pt_lim (fun t => m * t) x m.
Proof.
  apply derivable_pt_lim_value with (l := m * 1); [|ring].
  apply (derivable_pt_lim_scal id m x 1), derivable_pt_lim_id.
Qed.

Lemma derivable_pt_lim_sin_linear (m x : R) :
  derivable_pt_lim (fun t => sin (m * t)) x (m * cos (m * x)).
Proof.
  apply derivable_pt_lim_value with (l := cos (m * x) * m); [|ring].
  apply (derivable_pt_lim_comp (fun t => m * t) sin).
  - apply derivable_pt_lim_linear.
  - apply derivable_pt_lim_sin.
Qed.

Lemma derivable_pt_lim_cos_linear (m x : R) :
  derivable_pt_lim (fun t => cos (m * t)) x (- m * sin (m * x)).
Proof.
  apply derivable_pt_lim_value with (l := - sin (m * x) * m); [|ring].
  apply (derivable_pt_lim_comp (fun t => m * t) cos).
  - apply derivable_pt_lim_linear.
  - apply derivable_pt_lim_cos.
Qed.

Lemma derivable_pt_lim_square (q x : R) :
  derivable_pt_lim (fun t => (t - q) * (t - q)) x (2 * (x - q)).
Proof.
  apply derivable_pt_lim_value with (l := 1 * (x - q) + (x - q) * 1); [|ring].
  apply (derivable_pt_lim_mult (fun t => t - q) (fun t => t - q));
    apply derivable_pt_lim_shift.
Qed.

(** The tables of hard-coded derivatives agree with the table of
    functions: in exact arithmetic, [Math.sin] and [Math.cos] read as the
    real sine and cosine, every entry of [DERIVATIVES] is the derivative of
    the entry of [FUNCTIONS] of the same key at every point, and every
    entry of [SECOND_DERIVATIVES] the derivative of that of
    [DERIVATIVES]. *)
Theorem derivative_tables_are_derivatives (x : R) :
  (derivable_pt_lim Catalog.parabola x (Catalog.parabola' x) /\
   derivable_pt_lim Catalog.parabola' x (Catalog.parabola'' x)) /\
  (derivable_pt_lim multimodal x (multimodal' x) /\
   derivable_pt_lim multimodal' x (multimodal'' x)) /\
  (derivable_pt_lim rastrigin x (rastrigin' x) /\
   derivable_pt_lim rastrigin' x (rastrigin'' x)).
Proof.
  split; [|split]; split.
  - unfold Catalog.parabola, Catalog.parabola'. cbn.
    apply derivable_pt_lim_value with (l := 2 * (x - 2) + 0); [|ring].
    apply (derivable_pt_lim_plus (fun t => (t - 2) * (t - 2)) (fct_cte 1)).
    + apply derivable_pt_lim_square.
    + apply derivable_pt_lim_const.
  - unfold Catalog.parabola', Catalog.parabola''. cbn.
    apply derivable_pt_lim_affine.
  - unfold multimodal, multimodal'. cbn.
    apply (derivable_pt_lim_plus (fun t => (t - 2) * (t - 2))
                                 (fun t => sin (5 * t))).
    + apply derivable_pt_lim_square.
    + apply derivable_pt_lim_sin_linear.
  - unfold multimodal', multimodal''. cbn.
    apply derivable_pt_lim_value
      with (l := 2 + 5 * (- (5) * sin (5 * x))); [|ring].
    apply (derivable_pt_lim_plus (fun t => 2 * (t - 2))
                                 (fun t => 5 * cos (5 * t))).
    + apply derivable_pt_lim_affine.
    + apply (derivable_pt_lim_scal (fun t => cos (5 * t)) 5).
      apply derivable_pt_lim_cos_linear.
  - unfold rastrigin, rastrigin'. cbn.
    apply derivable_pt_lim_value
      with (l := (1 * x + x * 1) + 5 * (- (2) * sin (2 * x))); [|ring].
    apply (derivable_pt_lim_plus (fun t => t * t)
                                 (fun t => 5 * cos (2 * t))).
    + apply (derivable_pt_lim_mult id id); apply derivable_pt_lim_id.
    + apply (derivable_pt_lim_scal (fun t => cos (2 * t)) 5).
      apply derivable_pt_lim_cos_linear.
  - unfold rastrigin', rastrigin''. cbn.
    apply derivable_pt_lim_value
      with (l := 2 - 10 * (2 * cos (2 * x))); [|ring].
    apply (derivable_pt_lim_minus (fun t => 2 * t)
                                  (fun t => 10 * sin (2 * t))).
    + apply derivable_pt_lim_linear.
    + apply (derivable_pt_lim_scal (fun t => sin (2 * t)) 10).
      apply derivable_pt_lim_sin_linear.
Qed.

End ExactTables.

(** * Part VI: the further properties on concrete inputs *)

Section Binary64Witnesses.
Local Open Scope float_scope.

(** The parabola over [[-2, 5]], 60 iterations: the last row gives the
    result. *)
Lemma goldenSectionSearch_result_from_last_record_witness :
  (0 < 60)%nat /\
  exists r : GoldenSection.record,
    final (history (GoldenSection.goldenSectionSearch Catalog.parabola
                      (-2) 5 0.001 60)) = Some r /\
    GoldenSection.r_iter r = 20%nat.
Proof.
  assert (H : (0 < 60)%nat) by lia.
  split; [exact H|].
  destruct (goldenSectionSearch_result_from_last_record (T := float)
              Catalog.parabola (-2) 5 0.001 H) as (r & Hr & _).
  exists r. split; [exact Hr|].
  vm_compute in Hr. injection Hr as <-. reflexivity.
Defined.

Lemma bisectionMethod_history_and_result_witness :
  (0 < 60)%nat /\
  (0 < List.length
         (history (Bisection.bisectionMethod Catalog.parabola
                     Catalog.parabola' (-2)%float 5%float 0.000001%float
                     60)) <= 60)%nat.
Proof.
  assert (H : (0 < 60)%nat) by lia.
  split; [exact H|].
  destruct (bisectionMethod_history_and_result (T := float)
              Catalog.parabola Catalog.parabola' (-2) 5 0.000001 H)
    as (_ & Hlen & _).
  exact Hlen.
Defined.

Lemma newtonMethod_history_and_result_witness :
  (0 < 60)%nat /\
  (0 < List.length
         (history (fst (Newton.newtonMethod Catalog.parabola
                          Catalog.parabola' Catalog.parabola''
                          0%float 0.000001%float 60))) <= 60)%nat.
Proof.
  assert (H : (0 < 60)%nat) by lia.
  split; [exact H|].
  destruct (newtonMethod_history_and_result (T := float)
              Catalog.parabola Catalog.parabola' Catalog.parabola''
              0 0.000001 H) as (_ & Hlen & _).
  exact Hlen.
Defined.

(** A formula between blanks, and a formula with nothing to rewrite. *)
Lemma parseCustomFunction_ignores_blanks_witness :
  forallb Parser.isWhiteSpace (Parser.js "  ") = true /\
  Parser.parseCustomFunction ParserSets.sample_engine
    (Parser.js "  " ++ Parser.js "x^2 - 4*x + 3" ++ Parser.js "  ")
  = Parser.parseCustomFunction ParserSets.sample_engine
      (Parser.js "x^2 - 4*x + 3").
Proof.
  assert (H : forallb Parser.isWhiteSpace (Parser.js "  ") = true)
    by reflexivity.
  split; [exact H|].
  exact (proj1 (parseCustomFunction_ignores_blanks
                  ParserSets.sample_engine (Parser.js "  ")
                  (Parser.js "x^2 - 4*x + 3") (Parser.js "  ") H H)).
Defined.

Lemma processedFunc_plain_witness :
  ~ In 94%N (Parser.js "2*x + 1") /\ ~ In 40%N (Parser.js "2*x + 1") /\
  Parser.processedFunc (Parser.js "2*x + 1") = Parser.js "2*x + 1".
Proof.
  assert (H1 : ~ In 94%N (Parser.js "2*x + 1"))
    by (vm_compute; intuition discriminate).
  assert (H2 : ~ In 40%N (Parser.js "2*x + 1"))
    by (vm_compute; intuition discriminate).
  split; [exact H1|]. split; [exact H2|].
  exact (processedFunc_plain (Parser.js "2*x + 1") H1 H2).
Defined.

End Binary64Witnesses.

Section ExactWitnesses.
Import Shapes.
Local Open Scope R_scope.

Lemma parabola_unimodal : unimodal (Catalog.parabola (T := R)) (-2) 5 2.
Proof.
  unfold unimodal, Catalog.parabola. cbn.
  split; [lra|]. split; intros x y Hx Hxy Hy; nra.
Qed.

Lemma parabola_crosses_up :
  crosses_up (Catalog.parabola' (T := R)) (-2) 5 2.
Proof.
  unfold crosses_up, Catalog.parabola'. cbn.
  split; [lra|]. split; intros x Hx Hy; lra.
Qed.

(** The parabola [(x - 2)^2 + 1] over [[-2, 5]]: its minimiser is [2]. *)
Lemma goldenSectionSearch_finds_minimiser_witness :
  -2 < 5 /\ unimodal (Catalog.parabola (T := R)) (-2) 5 2 /\
  Rabs (xOpt (GoldenSection.goldenSectionSearch (T := R) Catalog.parabola
                (-2) 5 (1 / 1000) 60) - 2)
  <= (5 - -2) * (/ GoldenSection.phi) ^ 0 / 2.
Proof.
  assert (H : -2 < 5) by lra.
  split; [exact H|]. split; [exact parabola_unimodal|].
  destruct (goldenSectionSearch_finds_minimiser (1 / 1000) 60 H
              parabola_unimodal) as (_ & Hb & _).
  eapply Rle_trans; [exact Hb|].
  destruct inv_phi_facts as ((Hr1 & Hr2) & _).
  assert (Hp : (/ GoldenSection.phi) ^
                 Nat.pred (List.length (history
                   (GoldenSection.goldenSectionSearch (T := R)
                      Catalog.parabola (-2) 5 (1 / 1000) 60)))
               <= (/ GoldenSection.phi (T := R)) ^ 0)
    by (apply pow_le_anti; [lra|lia]).
  nra.
Defined.

Lemma bisectionMethod_finds_stationary_point_witness :
  -2 < 5 /\ crosses_up (Catalog.parabola' (T := R)) (-2) 5 2 /\
  Rabs (xOpt (Bisection.bisectionMethod (T := R) Catalog.parabola
                Catalog.parabola' (-2) 5 (1 / 1000000) 60) - 2)
  <= (5 - -2) * (/ 2) ^ 0.
Proof.
  assert (H : -2 < 5) by lra.
  split; [exact H|]. split; [exact parabola_crosses_up|].
  destruct (bisectionMethod_finds_stationary_point Catalog.parabola
              (1 / 1000000) 60 H parabola_crosses_up) as (_ & Hb).
  eapply Rle_trans; [exact Hb|].
  assert (Hp : (/ 2) ^ List.length (history
                   (Bisection.bisectionMethod (T := R) Catalog.parabola
                      Catalog.parabola' (-2) 5 (1 / 1000000) 60))
               <= (/ 2) ^ 0)
    by (apply pow_le_anti; [lra|lia]).
  nra.
Defined.

(** [x^2 - 4 x + 5], the parabola of the catalogue, from [x0 = 0]. *)
Lemma newtonMethod_exact_on_quadratics_witness :
  / 1000000000000 <= Rabs (2 * 1) /\ 0 < 1 / 1000000 /\ (2 <= 60)%nat /\
  xOpt (fst (Newton.newtonMethod (quadratic 1 (-4) 5) (quadratic' 1 (-4))
               (quadratic'' 1) 0 (1 / 1000000) 60)) = - -4 / (2 * 1).
Proof.
  assert (H1 : / 1000000000000 <= Rabs (2 * 1))
    by (rewrite Rabs_pos_eq; lra).
  assert (H2 : 0 < 1 / 1000000) by lra.
  assert (H3 : (2 <= 60)%nat) by lia.
  split; [exact H1|]. split; [exact H2|]. split; [exact H3|].
  destruct (newtonMethod_exact_on_quadratics 1 (-4) 5 0 H1 H2 H3)
    as (_ & _ & Hn).
  apply Hn.
  replace (2 * 1 * 0 + -4) with (-4) by ring.
  rewrite Rabs_left by lra. lra.
Defined.

End ExactWitnesses.
